(** * The Cognisphere: the simulation context of the dashboard

    A shallow embedding of [frontend/src/state/SimulationContext.tsx]:
    the state record and its reducer, the three asynchronous operations
    ([refreshData], [controlSimulation], [initializeSimulation]), the two
    timer operations ([startRealTimeUpdates], [stopRealTimeUpdates]) and
    the event loop that interleaves them.

    Values received from the network are typed [any] in the source, so
    they are modelled as untyped JavaScript values; the objects of the
    HTTP client (responses, errors) follow the client's interfaces. *)

From Stdlib Require Import ZArith NArith.
From stdpp Require Import base option list strings gmap.

Local Open Scope string_scope.
Local Open Scope list_scope.
Local Open Scope nat_scope.
Set Warnings "-register-all".

(** ** JavaScript values *)

Module Js.

(** A number is NaN, an infinity or [(-1)^negative * mantissa * 2^exponent];
    every IEEE double is one of these. *)
Inductive Number : Type :=
| NaN
| Infinity (negative : bool)
| Finite (negative : bool) (mantissa : N) (exponent : Z).

Inductive Value : Type :=
| Undefined
| Null
| Bool (b : bool)
| Num (n : Number)
| Str (s : string)
| Arr (items : list Value)
| Obj (props : list (string * Value)).

(** ToBoolean: what [if (v)] and [v || w] test. *)
Definition truthy (v : Value) : bool :=
  match v with
  | Undefined | Null => false
  | Bool b => b
  | Num NaN => false
  | Num (Infinity _) => true
  | Num (Finite _ m _) => negb (N.eqb m 0)
  | Str s => negb (String.eqb s "")
  | Arr _ | Obj _ => true
  end.

(** [a || b] *)
Definition or (a b : Value) : Value := if truthy a then a else b.

Definition nullish (v : Value) : bool :=
  match v with Undefined | Null => true | _ => false end.

Definition isArray (v : Value) : bool :=
  match v with Arr _ => true | _ => false end.

(** Own properties of an object literal, first binding of a key. *)
Fixpoint lookupProp (props : list (string * Value)) (name : string) : option Value :=
  match props with
  | [] => None
  | (k, v) :: rest => if String.eqb k name then Some v else lookupProp rest name
  end.

(** Errors as the code reads them: [error.message] and, on the HTTP
    client's errors, [error.response] with its [data]. *)
Record Response : Type := mkResponse { data : Value }.

Record Error : Type := mkError { message : string; response : option Response }.

(** [new Error(msg)] *)
Definition newError (msg : string) : Error := mkError msg None.

(** The TypeError of a property read on [null] or [undefined]
    (message as V8 words it). *)
Definition typeError (v : Value) (name : string) : Error :=
  newError ("Cannot read properties of "
              +:+ (match v with Null => "null" | _ => "undefined" end)
              +:+ " (reading '" +:+ name +:+ "')").

(** [v.name]: throws on null and undefined; a missing property reads as
    [undefined].  None of the names the code reads ([data], [agents],
    [status], [detail]) is a built-in property of a string, a number, a
    boolean or an array, so on those the read gives [undefined]. *)
Definition get (v : Value) (name : string) : Error + Value :=
  match v with
  | Undefined | Null => inl (typeError v name)
  | Obj props => inr (default Undefined (lookupProp props name))
  | _ => inr Undefined
  end.

(** [v?.name] *)
Definition getOpt (v : Value) (name : string) : Value :=
  match get v name with
  | inl _ => Undefined
  | inr w => w
  end.

End Js.

(** ** State and actions *)

Record SimulationState : Type := mkState {
  status : Js.Value;
  agents : Js.Value;
  networkData : Js.Value;
  economicData : Js.Value;
  culturalData : Js.Value;
  loading : bool;
  error : Js.Value;
  connected : bool
}.

(** The nine declared action types; [UNRECOGNIZED] stands for an action
    object whose [type] is none of them, which reaches the [default]
    branch of the reducer. *)
Inductive SimulationAction : Type :=
| SET_LOADING (payload : bool)
| SET_ERROR (payload : Js.Value)
| SET_CONNECTED (payload : bool)
| SET_STATUS (payload : Js.Value)
| SET_AGENTS (payload : Js.Value)
| SET_NETWORK_DATA (payload : Js.Value)
| SET_ECONOMIC_DATA (payload : Js.Value)
| SET_CULTURAL_DATA (payload : Js.Value)
| UPDATE_REALTIME_DATA
| UNRECOGNIZED (type_ : string).

Definition initialState : SimulationState :=
  {| status := Js.Null;
     agents := Js.Arr [];
     networkData := Js.Null;
     economicData := Js.Null;
     culturalData := Js.Null;
     loading := false;
     error := Js.Null;
     connected := false |}.

(** [{ ...state, field: v }] for each field. *)
Definition with_loading (v : bool) (s : SimulationState) : SimulationState :=
  mkState (status s) (agents s) (networkData s) (economicData s) (culturalData s)
          v (error s) (connected s).
Definition with_error (v : Js.Value) (s : SimulationState) : SimulationState :=
  mkState (status s) (agents s) (networkData s) (economicData s) (culturalData s)
          (loading s) v (connected s).
Definition with_connected (v : bool) (s : SimulationState) : SimulationState :=
  mkState (status s) (agents s) (networkData s) (economicData s) (culturalData s)
          (loading s) (error s) v.
Definition with_status (v : Js.Value) (s : SimulationState) : SimulationState :=
  mkState v (agents s) (networkData s) (economicData s) (culturalData s)
          (loading s) (error s) (connected s).
Definition with_agents (v : Js.Value) (s : SimulationState) : SimulationState :=
  mkState (status s) v (networkData s) (economicData s) (culturalData s)
          (loading s) (error s) (connected s).
Definition with_networkData (v : Js.Value) (s : SimulationState) : SimulationState :=
  mkState (status s) (agents s) v (economicData s) (culturalData s)
          (loading s) (error s) (connected s).
Definition with_economicData (v : Js.Value) (s : SimulationState) : SimulationState :=
  mkState (status s) (agents s) (networkData s) v (culturalData s)
          (loading s) (error s) (connected s).
Definition with_culturalData (v : Js.Value) (s : SimulationState) : SimulationState :=
  mkState (status s) (agents s) (networkData s) (economicData s) v
          (loading s) (error s) (connected s).

(** ** The reducer, over the object store

    State objects live in a store and are passed by reference, so that
    "a new object" and "the same object" can be told apart.  A spread
    [{ ...state, f: v }] reads the object behind [state] and allocates a
    fresh one; nothing ever writes to an existing address. *)

Definition Ref : Type := nat.
Definition Store : Type := list SimulationState.

Definition alloc (o : SimulationState) (h : Store) : Store * Ref :=
  (h ++ [o], length h).

Definition simulationReducer (h : Store) (state : Ref) (action : SimulationAction)
  : option (Store * Ref) :=
  match action with
  | SET_LOADING payload => s ← h !! state; Some (alloc (with_loading payload s) h)
  | SET_ERROR payload => s ← h !! state; Some (alloc (with_error payload s) h)
  | SET_CONNECTED payload => s ← h !! state; Some (alloc (with_connected payload s) h)
  | SET_STATUS payload => s ← h !! state; Some (alloc (with_status payload s) h)
  | SET_AGENTS payload => s ← h !! state; Some (alloc (with_agents payload s) h)
  | SET_NETWORK_DATA payload => s ← h !! state; Some (alloc (with_networkData payload s) h)
  | SET_ECONOMIC_DATA payload => s ← h !! state; Some (alloc (with_economicData payload s) h)
  | SET_CULTURAL_DATA payload => s ← h !! state; Some (alloc (with_culturalData payload s) h)
  | UPDATE_REALTIME_DATA => s ← h !! state; Some (alloc s h)
  | UNRECOGNIZED _ => Some (h, state)
  end.

(** The value the reducer's result denotes, for a state given by value:
    what [useReducer] holds after [dispatch(action)]. *)
Definition reduce (s : SimulationState) (action : SimulationAction) : SimulationState :=
  match simulationReducer [s] 0 action with
  | Some (h', r) => default s (h' !! r)
  | None => s
  end.

(** ** Effects of the asynchronous operations *)

Inductive Method : Type := GET | POST.

(** An outbound call of the HTTP client: [apiClient.get(url)] or
    [apiClient.post(url, body)]. *)
Record Request : Type := mkRequest {
  method : Method;
  url : string;
  body : Js.Value
}.

Definition apiClient_get (u : string) : Request := mkRequest GET u Js.Undefined.
Definition apiClient_post (u : string) (b : Js.Value) : Request := mkRequest POST u b.

(** How the promise of a call settles. *)
Inductive Settled : Type :=
| Fulfilled (value : Js.Response)
| Rejected (reason : Js.Error).

(** [toast.success(msg)] and [toast.error(msg)]. *)
Inductive ToastCall : Type :=
| toast_success (msg : string)
| toast_error (msg : Js.Value).

(** The body of an async function as a tree of its effects.  A leaf is a
    completion: [Done] (control falls off the end of a block), [Return]
    or [Throw].  [Await reqs k] issues the calls [reqs], suspends, and
    resumes with [k] once all of them have settled. *)
Inductive Async : Type :=
| Done
| Return (v : Js.Value)
| Throw (e : Js.Error)
| Dispatch (a : SimulationAction) (k : Async)
| Toast (t : ToastCall) (k : Async)
| Await (reqs : list Request) (k : list Settled → Async).

(** [first; second] *)
Fixpoint seq (first second : Async) : Async :=
  match first with
  | Done => second
  | Return v => Return v
  | Throw e => Throw e
  | Dispatch a k => Dispatch a (seq k second)
  | Toast t k => Toast t (seq k second)
  | Await reqs k => Await reqs (fun settled => seq (k settled) second)
  end.

(** [try { block } catch (error) { handler error }] *)
Fixpoint try_catch (block : Async) (handler : Js.Error → Async) : Async :=
  match block with
  | Done => Done
  | Return v => Return v
  | Throw e => handler e
  | Dispatch a k => Dispatch a (try_catch k handler)
  | Toast t k => Toast t (try_catch k handler)
  | Await reqs k => Await reqs (fun settled => try_catch (k settled) handler)
  end.

(** [try { block } finally { finalizer }]: the finalizer runs on every
    completion of the block, and the block's completion stands unless the
    finalizer itself returns or throws. *)
Fixpoint try_finally (block finalizer : Async) : Async :=
  match block with
  | Done => finalizer
  | Return v => seq finalizer (Return v)
  | Throw e => seq finalizer (Throw e)
  | Dispatch a k => Dispatch a (try_finally k finalizer)
  | Toast t k => Toast t (try_finally k finalizer)
  | Await reqs k => Await reqs (fun settled => try_finally (k settled) finalizer)
  end.

(** [await callee()] followed by [k] applied to the value the callee's
    promise resolves to; a rejection is rethrown at the [await]. *)
Fixpoint await_call (callee : Async) (k : Js.Value → Async) : Async :=
  match callee with
  | Done => k Js.Undefined
  | Return v => k v
  | Throw e => Throw e
  | Dispatch a c => Dispatch a (await_call c k)
  | Toast t c => Toast t (await_call c k)
  | Await reqs c => Await reqs (fun settled => await_call (c settled) k)
  end.

(** [await apiClient.post(url, body)] *)
Definition await_post (u : string) (b : Js.Value) (k : Js.Response → Async) : Async :=
  Await [apiClient_post u b]
        (fun settled =>
           match settled with
           | Fulfilled value :: _ => k value
           | Rejected reason :: _ => Throw reason
           | [] => Throw (Js.typeError Js.Undefined "data")
           end).

(** An expression that may throw, then the statement that uses its value. *)
Definition eval (e : Js.Error + Js.Value) (k : Js.Value → Async) : Async :=
  match e with
  | inl err => Throw err
  | inr v => k v
  end.

Definition dispatch (a : SimulationAction) : Async := Dispatch a Done.
Definition toast (t : ToastCall) : Async := Toast t Done.

Declare Scope async_scope.
Delimit Scope async_scope with async.
Bind Scope async_scope with Async.
Notation "s1 ;; s2" := (seq s1 s2)
  (at level 100, s2 at level 200, right associativity) : async_scope.
Notation "'let_' x ':=' e 'in_' k" := (eval e (fun x => k))
  (at level 10, x name, k at level 200) : async_scope.
Local Open Scope async_scope.

(** [if (r.status === 'fulfilled') { then_ r.value }] on one record of
    [Promise.allSettled]. *)
Definition if_fulfilled (r : Settled) (then_ : Js.Response → Async) : Async :=
  match r with
  | Fulfilled value => then_ value
  | Rejected _ => Done
  end.

(** ** The operations of the provider *)

Definition refreshRequests : list Request :=
  [ apiClient_get "/realtime/status";
    apiClient_get "/agents";
    apiClient_get "/realtime/network";
    apiClient_get "/realtime/economy";
    apiClient_get "/realtime/culture" ].

(** The statements after [await Promise.allSettled([...])].  The array
    has one record per promise, five here; a missing record would be
    [undefined] and reading its [status] would throw. *)
Definition refreshData_commit (settled : list Settled) : Async :=
  match settled with
  | [statusResponse; agentsResponse; networkResponse; economicResponse; culturalResponse] =>
      if_fulfilled statusResponse (fun value =>
        dispatch (SET_STATUS (Js.data value)) ;;
        dispatch (SET_CONNECTED true)) ;;
      if_fulfilled agentsResponse (fun value =>
        let_ agents := Js.get (Js.data value) "agents" in_
        dispatch (SET_AGENTS (Js.or agents (Js.Arr [])))) ;;
      if_fulfilled networkResponse (fun value =>
        dispatch (SET_NETWORK_DATA (Js.data value))) ;;
      if_fulfilled economicResponse (fun value =>
        dispatch (SET_ECONOMIC_DATA (Js.data value))) ;;
      if_fulfilled culturalResponse (fun value =>
        dispatch (SET_CULTURAL_DATA (Js.data value)))
  | _ => Throw (Js.typeError Js.Undefined "status")
  end.

(** The [catch] block of [refreshData]. *)
Definition refreshData_catch (error : Js.Error) : Async :=
  dispatch (SET_ERROR (Js.Str (Js.message error))) ;;
  dispatch (SET_CONNECTED false).

Definition refreshData : Async :=
  try_catch
    (dispatch (SET_ERROR Js.Null) ;;
     Await refreshRequests refreshData_commit)
    refreshData_catch.

(** [error.response?.data?.detail || error.message || fallback] *)
Definition errorMessageOf (error : Js.Error) (fallback : string) : Js.Value :=
  let detail :=
    match Js.response error with
    | None => Js.Undefined
    | Some r => Js.getOpt (Js.data r) "detail"
    end in
  Js.or (Js.or detail (Js.Str (Js.message error))) (Js.Str fallback).

Definition controlSimulation (action : string) : Async :=
  try_finally
    (try_catch
       (dispatch (SET_LOADING true) ;;
        dispatch (SET_ERROR Js.Null) ;;
        await_post "/simulation/control" (Js.Obj [("action", Js.Str action)]) (fun response =>
          let_ status := Js.get (Js.data response) "status" in_
          if Js.truthy status then
            toast (toast_success ("Simulation " +:+ action +:+ " successful")) ;;
            await_call refreshData (fun _ => Return (Js.Bool true))
          else
            Throw (Js.newError ("Failed to " +:+ action +:+ " simulation"))))
       (fun error =>
          let errorMessage := errorMessageOf error ("Failed to " +:+ action +:+ " simulation") in
          dispatch (SET_ERROR errorMessage) ;;
          toast (toast_error errorMessage) ;;
          Return (Js.Bool false)))
    (dispatch (SET_LOADING false)).

(** [v === 'initialized'] *)
Definition is_initialized (v : Js.Value) : bool :=
  match v with
  | Js.Str s => String.eqb s "initialized"
  | _ => false
  end.

Definition initializeSimulation (config : Js.Value) : Async :=
  try_finally
    (try_catch
       (dispatch (SET_LOADING true) ;;
        dispatch (SET_ERROR Js.Null) ;;
        await_post "/simulation/initialize" config (fun response =>
          let_ status := Js.get (Js.data response) "status" in_
          if is_initialized status then
            toast (toast_success "Simulation initialized successfully") ;;
            await_call refreshData (fun _ => Return (Js.Bool true))
          else
            Throw (Js.newError "Failed to initialize simulation")))
       (fun error =>
          let errorMessage := errorMessageOf error "Failed to initialize simulation" in
          dispatch (SET_ERROR errorMessage) ;;
          toast (toast_error errorMessage) ;;
          Return (Js.Bool false)))
    (dispatch (SET_LOADING false)).

(** What [refreshData] does once its [await] resumes. *)
Definition refreshData_resume (settled : list Settled) : Async :=
  try_catch (refreshData_commit settled) refreshData_catch.

(** The callback handed to [setInterval]: [async () => { await refreshData() }]. *)
Definition intervalCallback : Async := await_call refreshData (fun _ => Done).

Definition intervalCallback_resume (settled : list Settled) : Async :=
  await_call (refreshData_resume settled) (fun _ => Done).

(** ** The provider and the event loop

    One provider instance: the reducer state, the [updateInterval] state
    cell, and the parts of the runtime the operations act on (interval
    timers, the promises of calls that are suspended at an [await], the
    log of outbound calls, the toasts shown).  Time is counted in
    milliseconds.

    [startRealTimeUpdates] and [stopRealTimeUpdates] are closures
    created anew by every render of the provider, and the
    [updateInterval] they test is the value that render read from the
    state cell, not the cell itself.  The value a closure captured is
    therefore an argument of the two operations: it is the value the
    cell holds when the closure is the one of the latest render (a
    handler bound by the page and called by a fresh click), and an older
    value when the closure outlives its render (an async handler
    resuming after its [await], an effect with an empty dependency
    list).  [setUpdateInterval] writes the cell. *)

Record Timer : Type := mkTimer { handle : nat; due : nat }.

#[global] Instance Timer_eq_dec : EqDecision Timer.
Proof. solve_decision. Defined.

Definition Completion : Type := (Js.Error + Js.Value)%type.

Record Provider : Type := mkProvider {
  state : SimulationState;
  updateInterval : option nat;
  timers : list Timer;
  nextHandle : nat;
  clock : nat;
  pending : gmap nat (list Request * (list Settled → Async));
  nextCall : nat;
  network : list (nat * nat * Request);
  toasts : list ToastCall;
  results : list (nat * Completion)
}.

Definition initialProvider : Provider :=
  {| state := initialState;
     updateInterval := None;
     timers := [];
     nextHandle := 1;
     clock := 0;
     pending := ∅;
     nextCall := 0;
     network := [];
     toasts := [];
     results := [] |}.

Definition with_state (f : SimulationState → SimulationState) (p : Provider) : Provider :=
  mkProvider (f (state p)) (updateInterval p) (timers p) (nextHandle p) (clock p)
             (pending p) (nextCall p) (network p) (toasts p) (results p).
Definition with_toast (t : ToastCall) (p : Provider) : Provider :=
  mkProvider (state p) (updateInterval p) (timers p) (nextHandle p) (clock p)
             (pending p) (nextCall p) (network p) (toasts p ++ [t]) (results p).
Definition with_result (call : nat) (c : Completion) (p : Provider) : Provider :=
  mkProvider (state p) (updateInterval p) (timers p) (nextHandle p) (clock p)
             (pending p) (nextCall p) (network p) (toasts p) (results p ++ [(call, c)]).
Definition with_await (call : nat) (reqs : list Request) (k : list Settled → Async)
    (p : Provider) : Provider :=
  mkProvider (state p) (updateInterval p) (timers p) (nextHandle p) (clock p)
             (<[call := (reqs, k)]> (pending p)) (nextCall p)
             (network p ++ map (fun r => (clock p, call, r)) reqs)
             (toasts p) (results p).
Definition with_pending (m : gmap nat (list Request * (list Settled → Async)))
    (p : Provider) : Provider :=
  mkProvider (state p) (updateInterval p) (timers p) (nextHandle p) (clock p)
             m (nextCall p) (network p) (toasts p) (results p).
Definition with_nextCall (n : nat) (p : Provider) : Provider :=
  mkProvider (state p) (updateInterval p) (timers p) (nextHandle p) (clock p)
             (pending p) n (network p) (toasts p) (results p).
Definition with_clock (t : nat) (p : Provider) : Provider :=
  mkProvider (state p) (updateInterval p) (timers p) (nextHandle p) t
             (pending p) (nextCall p) (network p) (toasts p) (results p).
Definition with_timers (ts : list Timer) (p : Provider) : Provider :=
  mkProvider (state p) (updateInterval p) ts (nextHandle p) (clock p)
             (pending p) (nextCall p) (network p) (toasts p) (results p).
Definition with_updateInterval (h : option nat) (p : Provider) : Provider :=
  mkProvider (state p) h (timers p) (nextHandle p) (clock p)
             (pending p) (nextCall p) (network p) (toasts p) (results p).
Definition with_nextHandle (n : nat) (p : Provider) : Provider :=
  mkProvider (state p) (updateInterval p) (timers p) n (clock p)
             (pending p) (nextCall p) (network p) (toasts p) (results p).

(** Runs the body of call [call] up to its next [await] or its completion. *)
Fixpoint exec (call : nat) (body : Async) (p : Provider) : Provider :=
  match body with
  | Done => with_result call (inr Js.Undefined) p
  | Return v => with_result call (inr v) p
  | Throw e => with_result call (inl e) p
  | Dispatch a k => exec call k (with_state (fun s => reduce s a) p)
  | Toast t k => exec call k (with_toast t p)
  | Await reqs k => with_await call reqs k p
  end.

(** A call of an async operation: it gets the next call number and runs
    synchronously up to its first [await]. *)
Definition invoke (body : Async) (p : Provider) : Provider :=
  exec (nextCall p) body (with_nextCall (S (nextCall p)) p).

(** The polling period, [setInterval(..., 2000)]. *)
Definition period : nat := 2000.

(** [setInterval(callback, 2000)]: a fresh handle, first due one period
    from now. *)
Definition setInterval (p : Provider) : nat * Provider :=
  (nextHandle p,
   with_nextHandle (S (nextHandle p))
     (with_timers (timers p ++ [mkTimer (nextHandle p) (clock p + period)]) p)).

Definition clearInterval (h : nat) (p : Provider) : Provider :=
  with_timers (filter (fun t => handle t ≠ h) (timers p)) p.

Definition startRealTimeUpdates (captured : option nat) (p : Provider) : Provider :=
  match captured with
  | Some _ => p
  | None =>
      let '(interval, p') := setInterval p in
      with_updateInterval (Some interval) p'
  end.

Definition stopRealTimeUpdates (captured : option nat) (p : Provider) : Provider :=
  match captured with
  | Some h => with_updateInterval None (clearInterval h p)
  | None => p
  end.

(** The cleanup effect of the provider, [useEffect(() => () =>
    stopRealTimeUpdates(), [])]: with its empty dependency list it keeps
    the closure of the first render, in which [updateInterval] is the
    initial [null]. *)
Definition unmount (p : Provider) : Provider := stopRealTimeUpdates None p.

(** What can happen to a provider.  A call of [startRealTimeUpdates] or
    [stopRealTimeUpdates] comes with the value of [updateInterval] that
    the called closure captured; any value is admitted, which covers
    the closure of every render there can have been. *)
Inductive Event : Type :=
| CallRefreshData
| CallControlSimulation (action : string)
| CallInitializeSimulation (config : Js.Value)
| CallStartRealTimeUpdates (captured : option nat)
| CallStopRealTimeUpdates (captured : option nat)
| Elapse (dt : nat)
| TimerFire (h : nat)
| Settle (call : nat) (outcomes : list Settled).

(** A timer fires when it is due and is then due one period later; time
    does not pass beyond a due timer. *)
Definition fire (h : nat) (p : Provider) : option Provider :=
  if decide (mkTimer h (clock p) ∈ timers p) then
    Some (invoke intervalCallback
            (with_timers
               (map (fun t => if decide (handle t = h)
                              then mkTimer h (due t + period) else t)
                    (timers p)) p))
  else None.

Definition elapse (dt : nat) (p : Provider) : option Provider :=
  if decide (Forall (fun t => clock p + dt ≤ due t) (timers p))
  then Some (with_clock (clock p + dt) p)
  else None.

(** The calls awaited by [call] have all settled: the call resumes with
    one outcome per request. *)
Definition settle (call : nat) (outcomes : list Settled) (p : Provider) : option Provider :=
  match pending p !! call with
  | Some (reqs, k) =>
      if decide (length outcomes = length reqs)
      then Some (exec call (k outcomes) (with_pending (delete call (pending p)) p))
      else None
  | None => None
  end.

Definition step (p : Provider) (e : Event) : option Provider :=
  match e with
  | CallRefreshData => Some (invoke refreshData p)
  | CallControlSimulation action => Some (invoke (controlSimulation action) p)
  | CallInitializeSimulation config => Some (invoke (initializeSimulation config) p)
  | CallStartRealTimeUpdates captured => Some (startRealTimeUpdates captured p)
  | CallStopRealTimeUpdates captured => Some (stopRealTimeUpdates captured p)
  | Elapse dt => elapse dt p
  | TimerFire h => fire h p
  | Settle call outcomes => settle call outcomes p
  end.

Fixpoint run (p : Provider) (events : list Event) : option Provider :=
  match events with
  | [] => Some p
  | e :: rest => p' ← step p e; run p' rest
  end.

(** The provider after mounting: the initial-fetch effect has called
    [refreshData()]. *)
Definition mounted : Provider := invoke refreshData initialProvider.

(** The times at which polling cycles started: each cycle begins by
    issuing the status read. *)
Definition is_status_read (r : Request) : bool :=
  match method r with
  | GET => String.eqb (url r) "/realtime/status"
  | POST => false
  end.

Definition cycleStarts (p : Provider) : list nat :=
  omap (fun '(t, _, r) => if is_status_read r then Some t else None) (network p).

(** ** Observing a call between two suspensions

    What a body does from where it stands up to its next [await] or its
    completion: the actions it dispatches, the toasts it shows, the calls
    it then awaits with the continuation it parks, or the completion it
    reaches. *)

Fixpoint dispatched (body : Async) : list SimulationAction :=
  match body with
  | Dispatch a k => a :: dispatched k
  | Toast _ k => dispatched k
  | _ => []
  end.

Fixpoint toasted (body : Async) : list ToastCall :=
  match body with
  | Dispatch _ k => toasted k
  | Toast t k => t :: toasted k
  | _ => []
  end.

Fixpoint awaited (body : Async) : list Request :=
  match body with
  | Dispatch _ k | Toast _ k => awaited k
  | Await reqs _ => reqs
  | _ => []
  end.

Fixpoint continuation (body : Async) : list Settled → Async :=
  match body with
  | Dispatch _ k | Toast _ k => continuation k
  | Await _ k => k
  | _ => fun _ => Done
  end.

Fixpoint completion (body : Async) : option Completion :=
  match body with
  | Done => Some (inr Js.Undefined)
  | Return v => Some (inr v)
  | Throw e => Some (inl e)
  | Dispatch _ k | Toast _ k => completion k
  | Await _ _ => None
  end.

(** The reducer state after the actions of [body] up to its next stop. *)
Definition after (body : Async) (s : SimulationState) : SimulationState :=
  foldl reduce s (dispatched body).

(** Call [call] of [p] is an invocation of [body] suspended at the first
    [await] of [body]. *)
Definition suspended_in (body : Async) (p : Provider) (call : nat) : Prop :=
  pending p !! call = Some (awaited body, continuation body).

(** Stamps the calls issued by [call] at the time of [p]. *)
Definition issued (p : Provider) (call : nat) (reqs : list Request)
  : list (nat * nat * Request) :=
  map (fun r => (clock p, call, r)) reqs.

(** The providers the event loop can reach. *)
Inductive reachable : Provider → Prop :=
| reachable_initial : reachable initialProvider
| reachable_step (p p' : Provider) (e : Event) :
    reachable p → step p e = Some p' → reachable p'.

(** ** Sources and slots *)

Inductive Source : Type := Status | Agents | Network | Economy | Culture.

Definition slot (src : Source) (s : SimulationState) : Js.Value :=
  match src with
  | Status => status s
  | Agents => agents s
  | Network => networkData s
  | Economy => economicData s
  | Culture => culturalData s
  end.

(** Position of a source in the array given to [Promise.allSettled]. *)
Definition position (src : Source) : nat :=
  match src with
  | Status => 0
  | Agents => 1
  | Network => 2
  | Economy => 3
  | Culture => 4
  end.

Definition outcome (src : Source) (outcomes : list Settled) : option Settled :=
  outcomes !! position src.

(** The payload a fulfilled response carries for its slot: the body, and
    for the agents source the [agents] member of the body or, when that
    is falsy, the empty array. *)
Definition payload (src : Source) (value : Js.Response) : Js.Value :=
  match src with
  | Agents => Js.or (Js.getOpt (Js.data value) "agents") (Js.Arr [])
  | _ => Js.data value
  end.

(** The agents response can be read: it is not a fulfilled response whose
    body is [null] or [undefined] (reading [.agents] of such a body
    throws). *)
Definition agents_readable (outcomes : list Settled) : bool :=
  match outcome Agents outcomes with
  | Some (Fulfilled value) => negb (Js.nullish (Js.data value))
  | _ => true
  end.

(** The fields of the state, and the field an action is aimed at. *)
Inductive Field : Type :=
| f_status | f_agents | f_networkData | f_economicData | f_culturalData
| f_loading | f_error | f_connected.

Definition target (action : SimulationAction) : option Field :=
  match action with
  | SET_LOADING _ => Some f_loading
  | SET_ERROR _ => Some f_error
  | SET_CONNECTED _ => Some f_connected
  | SET_STATUS _ => Some f_status
  | SET_AGENTS _ => Some f_agents
  | SET_NETWORK_DATA _ => Some f_networkData
  | SET_ECONOMIC_DATA _ => Some f_economicData
  | SET_CULTURAL_DATA _ => Some f_culturalData
  | UPDATE_REALTIME_DATA => None
  | UNRECOGNIZED _ => None
  end.

Definition same_field (f : Field) (s s' : SimulationState) : Prop :=
  match f with
  | f_status => status s' = status s
  | f_agents => agents s' = agents s
  | f_networkData => networkData s' = networkData s
  | f_economicData => economicData s' = economicData s
  | f_culturalData => culturalData s' = culturalData s
  | f_loading => loading s' = loading s
  | f_error => error s' = error s
  | f_connected => connected s' = connected s
  end.

Definition recognized (action : SimulationAction) : bool :=
  match action with
  | UNRECOGNIZED _ => false
  | _ => true
  end.

(** Outcomes used in the examples. *)
Definition ok (body : Js.Value) : Settled := Fulfilled (Js.mkResponse body).
Definition networkError : Settled := Rejected (Js.mkError "Network Error" None).

(** ** Commands *)

(** The two commands of the provider, with what is specific to each. *)
Inductive Command : Type :=
| Control (action : string)
| Initialize (config : Js.Value).

Definition commandBody (cmd : Command) : Async :=
  match cmd with
  | Control action => controlSimulation action
  | Initialize config => initializeSimulation config
  end.

Definition commandEvent (cmd : Command) : Event :=
  match cmd with
  | Control action => CallControlSimulation action
  | Initialize config => CallInitializeSimulation config
  end.

Definition commandRequest (cmd : Command) : Request :=
  match cmd with
  | Control action =>
      apiClient_post "/simulation/control" (Js.Obj [("action", Js.Str action)])
  | Initialize config => apiClient_post "/simulation/initialize" config
  end.

Definition successText (cmd : Command) : string :=
  match cmd with
  | Control action => "Simulation " +:+ action +:+ " successful"
  | Initialize _ => "Simulation initialized successfully"
  end.

Definition failureText (cmd : Command) : string :=
  match cmd with
  | Control action => "Failed to " +:+ action +:+ " simulation"
  | Initialize _ => "Failed to initialize simulation"
  end.

(** A command settles successfully when its call is fulfilled and the
    [status] of the response body is what the command expects. *)
Definition succeeded (cmd : Command) (o : Settled) : bool :=
  match o with
  | Fulfilled r =>
      match Js.get (Js.data r) "status" with
      | inr v => match cmd with
                 | Control _ => Js.truthy v
                 | Initialize _ => is_initialized v
                 end
      | inl _ => false
      end
  | Rejected _ => false
  end.

(** The error a command that does not succeed fails with: the reason of
    the rejected call, the TypeError of an unreadable body, or the
    command's own [new Error(...)]. *)
Definition failure (cmd : Command) (o : Settled) : Js.Error :=
  match o with
  | Rejected reason => reason
  | Fulfilled r =>
      match Js.get (Js.data r) "status" with
      | inl e => e
      | inr _ => Js.newError (failureText cmd)
      end
  end.

(** A cycle in flight, its five reads awaited: [refreshData()] called
    directly (on mount, from a page), by the interval timer, or by a
    command that has just succeeded. *)
Definition polling (p : Provider) (call : nat) : Prop :=
  suspended_in refreshData p call
  ∨ suspended_in intervalCallback p call
  ∨ ∃ cmd o, succeeded cmd o = true
             ∧ suspended_in (continuation (commandBody cmd) [o]) p call.

(** The message the remote system supplies with a failure: the [detail]
    of the body of the error response, when there is one and it is not
    empty. *)
Definition remoteMessage (o : Settled) : option Js.Value :=
  match o with
  | Rejected reason =>
      match Js.response reason with
      | Some r =>
          let detail := Js.getOpt (Js.data r) "detail" in
          if Js.truthy detail then Some detail else None
      | None => None
      end
  | Fulfilled _ => None
  end.


(** ** Statements checked against the code *)

(** The reducer hands back an object that was not in the store before. *)
Definition returns_new_object (h : Store) (state : Ref) (action : SimulationAction) : Prop :=
  ∃ h' r, simulationReducer h state action = Some (h', r) ∧ h !! r = None.

(** Stale-write rejection between two cycles [c1 < c2] in flight: once
    the outcomes of [c2] are committed, those of [c1] change no slot. *)
Definition stale_write_rejected (p : Provider) (c1 c2 : nat) (o1 o2 : list Settled) : Prop :=
  ∀ p1 p2,
    step p (Settle c2 o2) = Some p1 →
    step p1 (Settle c1 o1) = Some p2 →
    ∀ src, slot src (state p2) = slot src (state p1).

(** Outcomes of two cycles: one in which only the status read succeeds,
    one in which every read fails. *)
Definition first_cycle : list Settled :=
  [ ok (Js.Obj [("state", Js.Str "running")]);
    networkError; networkError; networkError; networkError ].

Definition all_failed : list Settled :=
  [ networkError; networkError; networkError; networkError; networkError ].

(** Two timer ticks with no settlement in between: cycles 0 and 1 are
    both in flight. *)
Definition overlapping_events : list Event :=
  [ CallStartRealTimeUpdates None; Elapse 2000; TimerFire 1; Elapse 2000; TimerFire 1 ].

Definition tick (n : N) : Js.Value :=
  Js.Obj [("state", Js.Str "running"); ("current_tick", Js.Num (Js.Finite false n 0))].

(** What the reads of cycle 0 and of cycle 1 return. *)
Definition older : list Settled :=
  [ ok (tick 7); networkError; networkError; networkError; networkError ].
Definition newer : list Settled :=
  [ ok (tick 8); networkError; networkError; networkError; networkError ].

(** A fulfilled agents response whose [agents] member is not an array. *)
Definition agents_as_text : list Settled :=
  [ networkError; ok (Js.Obj [("agents", Js.Str "none")]);
    networkError; networkError; networkError ].

(** [stop()] neutralises what is in flight: the outcomes of a cycle that
    was started before [stop()] and settles after it change nothing.
    The [stop()] is the one of the latest render, which holds the handle
    of the running timer. *)
Definition no_mutation_after_stop (p : Provider) (call : nat) (outcomes : list Settled) : Prop :=
  ∀ q q',
    step p (CallStopRealTimeUpdates (updateInterval p)) = Some q →
    step q (Settle call outcomes) = Some q' →
    state q' = state q.

(** The interval is running and its first tick has started cycle 0. *)
Definition first_tick_events : list Event :=
  [ CallStartRealTimeUpdates None; Elapse 2000; TimerFire 1 ].

(** Any two consecutive cycle starts are at least one period apart. *)
Definition cadence_respected (p : Provider) : Prop :=
  ∀ i t1 t2,
    cycleStarts p !! i = Some t1 →
    cycleStarts p !! S i = Some t2 →
    t1 + period ≤ t2.

(** Polling starts at 0; a command issued at 400 is acknowledged at 500;
    the timer is due at 2000. *)
Definition command_events : list Event :=
  [ CallStartRealTimeUpdates None;
    Elapse 400;
    CallControlSimulation "start";
    Elapse 100;
    Settle 0 [ok (Js.Obj [("status", Js.Str "running")])];
    Elapse 1500;
    TimerFire 1 ].

(** The events that act on the interval timer. *)
Definition acts_on_timer (e : Event) : bool :=
  match e with
  | CallStartRealTimeUpdates _ | CallStopRealTimeUpdates _ | TimerFire _ => true
  | _ => false
  end.

(** Single flight: a dispatch made while a command is pending fails at
    once with an error and sends nothing. *)
Definition busy_rejected (p : Provider) (cmd : Command) : Prop :=
  ∃ p' e,
    step p (commandEvent cmd) = Some p'
    ∧ results p' = results p ++ [(nextCall p, inl e)]
    ∧ network p' = network p.

(** What a toast shows. *)
Definition toast_text (t : ToastCall) : Js.Value :=
  match t with
  | toast_success msg => Js.Str msg
  | toast_error msg => msg
  end.

(** The settlement that leads from [p] to [p'] notifies the user with
    the message [m]. *)
Definition notified_with (m : Js.Value) (p p' : Provider) : Prop :=
  ∃ t, toasts p' = toasts p ++ [t] ∧ toast_text t = m.

(** An acknowledgement in which the remote system supplies a message of
    its own, under both names a message goes by ([message], and the
    [detail] the client reads from error responses). *)
Definition acknowledged_with_message : Settled :=
  ok (Js.Obj [("status", Js.Str "paused");
              ("message", Js.Str "Paused at tick 12");
              ("detail", Js.Str "Paused at tick 12")]).

Definition pause_request : Request :=
  apiClient_post "/simulation/control" (Js.Obj [("action", Js.Str "pause")]).

(** [handleInitialize] of the control panel, submitted while polling is
    off: the initialize call is made; while it is pending, polling is
    started by the updates button; the call is acknowledged and its
    refresh settles; [handleInitialize] resumes after its [await] and
    calls the [startRealTimeUpdates] of the render in which the form was
    submitted. *)
Definition stale_start_events : list Event :=
  [ CallInitializeSimulation (Js.Obj []);
    CallStartRealTimeUpdates None;
    Settle 0 [ok (Js.Obj [("status", Js.Str "initialized")])];
    Settle 0 all_failed;
    CallStartRealTimeUpdates None ].

(** ** Invariants of the event loop *)

(** Timer handles are handed out in increasing order: every timer that
    exists has a handle below the next one. *)
Definition timers_ok (p : Provider) : Prop :=
  ∀ t, t ∈ timers p → handle t < nextHandle p.

(** The timer with handle [h], created at time [t0], is on its schedule:
    it is due at [t0] plus a positive number of periods, and that time has
    not passed. *)
Definition on_schedule (t0 h : nat) (p : Provider) : Prop :=
  ∀ d, mkTimer h d ∈ timers p → clock p ≤ d ∧ ∃ k, d = t0 + (k + 1) * period.

(** Calls are numbered in the order in which they are made. *)
Definition calls_ok (p : Provider) : Prop :=
  ∀ call, is_Some (pending p !! call) → call < nextCall p.

(** The scenario of the specification: status and agents succeed, the
    network read fails. *)
Definition scenario_outcomes : list Settled :=
  [ ok (Js.Obj [("state", Js.Str "running")]);
    ok (Js.Obj [("agents", Js.Arr [Js.Str "a1"])]);
    networkError;
    networkError;
    networkError ].

(** Two direct calls of [refreshData()], both awaiting their reads. *)
Definition two_cycles : Provider := invoke refreshData (invoke refreshData initialProvider).

(** ** The callers: control buttons and the updates button

    [ControlPanel] (in the header) and the [Simulation] page derive the
    same three flags from the status slot, show the same control buttons
    and pass their clicks to the same [handleControl]. *)

(** [state.status?.state === text] *)
Definition statusIs (text : string) (s : SimulationState) : bool :=
  match Js.getOpt (status s) "state" with
  | Js.Str t => String.eqb t text
  | _ => false
  end.

Definition isRunning (s : SimulationState) : bool := statusIs "running" s.
Definition isPaused (s : SimulationState) : bool := statusIs "paused" s.
Definition isStopped (s : SimulationState) : bool :=
  statusIs "stopped" s || statusIs "ready" s.

(** A control button as rendered: the action its click hands to
    [handleControl] and its [disabled] attribute. *)
Record Button : Type := mkButton { action_of : string; disabled : bool }.

(** The control buttons in the order of the markup. *)
Definition controlButtons (s : SimulationState) : list Button :=
  (if isStopped s then [mkButton "start" (loading s)] else [])
  ++ (if isRunning s then [mkButton "pause" (loading s)] else [])
  ++ (if isPaused s
      then [mkButton "resume" (loading s); mkButton "step" (loading s)] else [])
  ++ (if isRunning s || isPaused s then [mkButton "stop" (loading s)] else []).

(** [async (action) => { await controlSimulation(action) }] *)
Definition handleControl (action : string) : Async :=
  await_call (controlSimulation action) (fun _ => Done).

(** A click on a control button; a disabled button does not call its
    handler. *)
Definition click (b : Button) (p : Provider) : Provider :=
  if disabled b then p else invoke (handleControl (action_of b)) p.

(** The button of the Simulation page labelled "Stop Updates" or
    "Start Updates". *)
Definition updatesButton_label (s : SimulationState) : string :=
  if isRunning s then "Stop Updates" else "Start Updates".

(** Its handler is bound anew by every render of the page and a click
    is an event of its own, so the closures it calls are those of the
    latest render: they hold the value of the cell. *)
Definition updatesButton_onClick (p : Provider) : Provider :=
  if isRunning (state p)
  then stopRealTimeUpdates (updateInterval p) p
  else startRealTimeUpdates (updateInterval p) p.

(** The error card of the Simulation page, [{state.error && (...)}]. *)
Definition showsErrorCard (s : SimulationState) : bool := Js.truthy (error s).

(** ** Bodies that cannot reject

    No path of the body ends in an uncaught [throw], whatever the awaited
    calls answer. *)
Inductive never_throws : Async → Prop :=
| never_throws_done : never_throws Done
| never_throws_return (v : Js.Value) : never_throws (Return v)
| never_throws_dispatch (a : SimulationAction) (k : Async) :
    never_throws k → never_throws (Dispatch a k)
| never_throws_toast (t : ToastCall) (k : Async) :
    never_throws k → never_throws (Toast t k)
| never_throws_await (reqs : list Request) (k : list Settled → Async) :
    (∀ outcomes, never_throws (k outcomes)) → never_throws (Await reqs k).

(** Every suspended call resumes with a body that cannot reject, and
    every call that has completed was resolved. *)
Definition promises_ok (p : Provider) : Prop :=
  (∀ call reqs k, pending p !! call = Some (reqs, k) → ∀ outcomes, never_throws (k outcomes))
  ∧ (∀ call r, (call, r) ∈ results p → ∃ v, r = inr v).

(** The events of polling: everything but the call of a command and the
    settlement of a call that belongs to a command. *)
Definition polling_event (p : Provider) (e : Event) : Prop :=
  match e with
  | CallControlSimulation _ | CallInitializeSimulation _ => False
  | Settle call _ =>
      suspended_in refreshData p call ∨ suspended_in intervalCallback p call
  | _ => True
  end.

(** Every fetch of the cycle failed. *)
Definition all_rejected (outcomes : list Settled) : Prop :=
  ∀ src, ∃ reason, outcome src outcomes = Some (Rejected reason).

(** A provider with one [pause] command in flight. *)
Definition pausing : Provider := invoke (controlSimulation "pause") initialProvider.

(** A status payload in a given state. *)
Definition status_in (text : string) : Js.Value := Js.Obj [("state", Js.Str text)].

(** ** The calls in flight

    What a suspended call can be: a cycle started directly or by the
    timer, a command awaiting its own call, or a command that succeeded
    and awaits its refresh. *)
Definition command_in_flight (p : Provider) (call : nat) : Prop :=
  ∃ cmd,
    suspended_in (commandBody cmd) p call
    ∨ ∃ o, succeeded cmd o = true
           ∧ suspended_in (continuation (commandBody cmd) [o]) p call.

Definition known_calls (p : Provider) : Prop :=
  ∀ call, is_Some (pending p !! call) →
          suspended_in refreshData p call
          ∨ suspended_in intervalCallback p call
          ∨ command_in_flight p call.

(** The seven calls the provider makes: five reads without a body, the
    control POST with the action name as its body, the initialize POST
    with the configuration. *)
Definition known_request (r : Request) : Prop :=
  (method r = GET
   ∧ url r ∈ ["/realtime/status"; "/agents"; "/realtime/network";
              "/realtime/economy"; "/realtime/culture"])
  ∨ (method r = POST ∧ url r = "/simulation/control"
     ∧ ∃ action, body r = Js.Obj [("action", Js.Str action)])
  ∨ (method r = POST ∧ url r = "/simulation/initialize").

(** While [loading] is set, some command is in flight. *)
Definition busy_has_command (p : Provider) : Prop :=
  loading (state p) = true → ∃ call, command_in_flight p call.

(** A cycle in which the agents read is fulfilled with the body [null]:
    the status, economy and culture reads are fulfilled with a body, the
    network read is rejected. *)
Definition unreadable_agents_cycle : list Settled :=
  [ ok (status_in "running");
    ok Js.Null;
    networkError;
    ok (Js.Obj [("total_trades", Js.Str "12")]);
    ok (Js.Obj [("myths", Js.Arr [])]) ].

(** * Properties *)

(** ** What one run of a body changes in the provider *)

Section Exec.

Variables (call : nat) (body : Async).

Lemma exec_state p : state (exec call body p) = after body (state p).
Proof. revert p. induction body; intros p; simpl; auto. all: by rewrite IHa. Qed.

Lemma exec_toasts p : toasts (exec call body p) = toasts p ++ toasted body.
Proof.
  revert p. induction body; intros p; simpl; rewrite ?app_nil_r; auto.
  - by rewrite IHa.
  - rewrite IHa. simpl. by rewrite <- app_assoc.
Qed.

Lemma exec_network p :
  network (exec call body p) = network p ++ issued p call (awaited body).
Proof.
  revert p. induction body; intros p; simpl; rewrite ?app_nil_r; auto.
  all: by rewrite IHa.
Qed.

Lemma exec_results p :
  results (exec call body p)
  = results p ++ match completion body with Some c => [(call, c)] | None => [] end.
Proof.
  revert p. induction body; intros p; simpl; rewrite ?app_nil_r; auto.
  all: by rewrite IHa.
Qed.

Lemma exec_pending p :
  pending (exec call body p)
  = match completion body with
    | Some _ => pending p
    | None => <[call := (awaited body, continuation body)]> (pending p)
    end.
Proof. revert p. induction body; intros p; simpl; auto. all: by rewrite IHa. Qed.

Lemma exec_timers p : timers (exec call body p) = timers p.
Proof. revert p. induction body; intros p; simpl; auto. all: by rewrite IHa. Qed.

Lemma exec_updateInterval p : updateInterval (exec call body p) = updateInterval p.
Proof. revert p. induction body; intros p; simpl; auto. all: by rewrite IHa. Qed.

Lemma exec_clock p : clock (exec call body p) = clock p.
Proof. revert p. induction body; intros p; simpl; auto. all: by rewrite IHa. Qed.

Lemma exec_nextHandle p : nextHandle (exec call body p) = nextHandle p.
Proof. revert p. induction body; intros p; simpl; auto. all: by rewrite IHa. Qed.

Lemma exec_nextCall p : nextCall (exec call body p) = nextCall p.
Proof. revert p. induction body; intros p; simpl; auto. all: by rewrite IHa. Qed.

End Exec.

(** A call that is suspended resumes with the continuation it parked. *)
Lemma settle_suspended body p call outcomes :
  suspended_in body p call →
  length outcomes = length (awaited body) →
  settle call outcomes p
  = Some (exec call (continuation body outcomes)
               (with_pending (delete call (pending p)) p)).
Proof.
  unfold suspended_in, settle. intros -> Hlen.
  by rewrite decide_True.
Qed.

Lemma settle_inv call outcomes p p' :
  settle call outcomes p = Some p' →
  ∃ reqs k, pending p !! call = Some (reqs, k)
            ∧ length outcomes = length reqs
            ∧ p' = exec call (k outcomes) (with_pending (delete call (pending p)) p).
Proof.
  unfold settle. destruct (pending p !! call) as [[reqs k]|]; [|done].
  case_decide; [|done]. intros [= <-]. eauto.
Qed.

(** Awaiting a callee and then falling off the end adds nothing to what
    the callee does. *)
Section AwaitCallDone.

Variable callee : Async.

Lemma dispatched_await_call_done :
  dispatched (await_call callee (fun _ => Done)) = dispatched callee.
Proof. induction callee; simpl; auto. by rewrite IHa. Qed.

Lemma toasted_await_call_done :
  toasted (await_call callee (fun _ => Done)) = toasted callee.
Proof. induction callee; simpl; auto. by rewrite IHa. Qed.

Lemma awaited_await_call_done :
  awaited (await_call callee (fun _ => Done)) = awaited callee.
Proof. induction callee; simpl; auto. Qed.

Lemma completion_await_call_done :
  completion (await_call callee (fun _ => Done))
  = match completion callee with
    | Some (inr _) => Some (inr Js.Undefined)
    | other => other
    end.
Proof. induction callee; simpl; auto. Qed.

End AwaitCallDone.

(** ** The reducer by value *)

Lemma reduce_eq s action :
  reduce s action
  = match action with
    | SET_LOADING v => with_loading v s
    | SET_ERROR v => with_error v s
    | SET_CONNECTED v => with_connected v s
    | SET_STATUS v => with_status v s
    | SET_AGENTS v => with_agents v s
    | SET_NETWORK_DATA v => with_networkData v s
    | SET_ECONOMIC_DATA v => with_economicData v s
    | SET_CULTURAL_DATA v => with_culturalData v s
    | UPDATE_REALTIME_DATA => s
    | UNRECOGNIZED _ => s
    end.
Proof. by destruct action. Qed.

(** ** The two halves of a polling cycle *)

Lemma refreshData_suspends :
  awaited refreshData = refreshRequests ∧ continuation refreshData = refreshData_resume.
Proof. split; reflexivity. Qed.

Lemma intervalCallback_suspends :
  awaited intervalCallback = refreshRequests
  ∧ continuation intervalCallback = intervalCallback_resume.
Proof. split; reflexivity. Qed.

(** Splits a list of five outcomes into its elements. *)
Ltac five outcomes H :=
  destruct outcomes as
    [|statusResponse [|agentsResponse [|networkResponse
       [|economicResponse [|culturalResponse [|? ?]]]]]];
  try discriminate H; clear H.

(** Case analysis on the agents record of [Promise.allSettled], down to
    the kind of body of a fulfilled response. *)
Ltac agents_cases o := destruct o as [[[]]|?].

(** After the [await], [refreshData] only dispatches: it shows no toast,
    awaits nothing and completes normally, whatever the five outcomes. *)
Lemma refreshData_resume_completes outcomes :
  length outcomes = 5 →
  toasted (refreshData_resume outcomes) = []
  ∧ awaited (refreshData_resume outcomes) = []
  ∧ completion (refreshData_resume outcomes) = Some (inr Js.Undefined).
Proof.
  intros H. five outcomes H.
  destruct statusResponse, networkResponse, economicResponse, culturalResponse;
    agents_cases agentsResponse; repeat split; reflexivity.
Qed.

(** A fulfilled response is committed to its slot, provided the agents
    response can be read. *)
Lemma refreshData_resume_commits outcomes src value s :
  length outcomes = 5 →
  agents_readable outcomes = true →
  outcome src outcomes = Some (Fulfilled value) →
  slot src (after (refreshData_resume outcomes) s) = payload src value.
Proof.
  intros H Hread Hsrc. five outcomes H.
  destruct src; simpl in Hsrc; injection Hsrc as ->.
  all: first [agents_cases agentsResponse | destruct value as [[]]];
    try discriminate Hread;
    repeat match goal with o : Settled |- _ => destruct o end;
    reflexivity.
Qed.

(** A rejected fetch leaves its slot as it was. *)
Lemma refreshData_resume_retains outcomes src reason s :
  length outcomes = 5 →
  outcome src outcomes = Some (Rejected reason) →
  slot src (after (refreshData_resume outcomes) s) = slot src s.
Proof.
  intros H Hsrc. five outcomes H.
  destruct src; simpl in Hsrc; injection Hsrc as ->.
  all: try agents_cases agentsResponse;
    repeat match goal with o : Settled |- _ => destruct o end;
    reflexivity.
Qed.

(** The connectivity flag after the commit: set by a fulfilled status
    read, cleared only by the [catch] block, otherwise left alone. *)
Lemma refreshData_resume_connected outcomes s :
  length outcomes = 5 →
  connected (after (refreshData_resume outcomes) s)
  = if agents_readable outcomes
    then match outcome Status outcomes with
         | Some (Fulfilled _) => true
         | _ => connected s
         end
    else false.
Proof.
  intros H. five outcomes H.
  agents_cases agentsResponse;
    repeat match goal with o : Settled |- _ => destruct o end;
    reflexivity.
Qed.

(** The commit never touches [loading]. *)
Lemma refreshData_resume_loading outcomes s :
  length outcomes = 5 →
  loading (after (refreshData_resume outcomes) s) = loading s.
Proof.
  intros H. five outcomes H.
  agents_cases agentsResponse;
    repeat match goal with o : Settled |- _ => destruct o end;
    reflexivity.
Qed.

(** ** Commands, between their suspensions *)

(** Up to its [await], a command sets [loading], clears [error] and
    issues its one call. *)
Lemma command_begins cmd :
  dispatched (commandBody cmd) = [SET_LOADING true; SET_ERROR Js.Null]
  ∧ toasted (commandBody cmd) = []
  ∧ awaited (commandBody cmd) = [commandRequest cmd]
  ∧ completion (commandBody cmd) = None.
Proof. destruct cmd; repeat split; reflexivity. Qed.

(** Case analysis on the outcome of a command's call, down to the kind
    of body of a fulfilled response. *)
Ltac command_cases cmd o H :=
  destruct cmd; destruct o as [[[]]|?]; simpl in H; try discriminate H; simpl;
  rewrite ?H; simpl.

Lemma command_fails cmd o :
  succeeded cmd o = false →
  dispatched (continuation (commandBody cmd) [o])
  = [SET_ERROR (errorMessageOf (failure cmd o) (failureText cmd)); SET_LOADING false]
  ∧ toasted (continuation (commandBody cmd) [o])
    = [toast_error (errorMessageOf (failure cmd o) (failureText cmd))]
  ∧ awaited (continuation (commandBody cmd) [o]) = []
  ∧ completion (continuation (commandBody cmd) [o]) = Some (inr (Js.Bool false)).
Proof. intros H. command_cases cmd o H; repeat split; reflexivity. Qed.

Lemma command_succeeds cmd o :
  succeeded cmd o = true →
  dispatched (continuation (commandBody cmd) [o]) = [SET_ERROR Js.Null]
  ∧ toasted (continuation (commandBody cmd) [o]) = [toast_success (successText cmd)]
  ∧ awaited (continuation (commandBody cmd) [o]) = refreshRequests
  ∧ completion (continuation (commandBody cmd) [o]) = None.
Proof. intros H. command_cases cmd o H; repeat split; reflexivity. Qed.

Lemma command_refreshed cmd o outcomes :
  succeeded cmd o = true →
  length outcomes = 5 →
  dispatched (continuation (continuation (commandBody cmd) [o]) outcomes)
  = dispatched (refreshData_resume outcomes) ++ [SET_LOADING false]
  ∧ toasted (continuation (continuation (commandBody cmd) [o]) outcomes) = []
  ∧ awaited (continuation (continuation (commandBody cmd) [o]) outcomes) = []
  ∧ completion (continuation (continuation (commandBody cmd) [o]) outcomes)
    = Some (inr (Js.Bool true)).
Proof.
  intros H Hlen. five outcomes Hlen.
  command_cases cmd o H;
    destruct statusResponse, networkResponse, economicResponse, culturalResponse;
    agents_cases agentsResponse; repeat split; reflexivity.
Qed.

Lemma errorMessage_remote cmd o m :
  remoteMessage o = Some m →
  errorMessageOf (failure cmd o) (failureText cmd) = m.
Proof.
  destruct o as [r|reason]; simpl; [done|].
  unfold errorMessageOf. destruct (Js.response reason) as [r|]; [|done].
  destruct (Js.truthy (Js.getOpt (Js.data r) "detail")) eqn:Hd; [|done].
  intros [= <-]. unfold Js.or. by rewrite Hd, Hd.
Qed.

Lemma errorMessage_generic cmd o :
  remoteMessage o = None →
  errorMessageOf (failure cmd o) (failureText cmd)
  = Js.or (Js.Str (Js.message (failure cmd o))) (Js.Str (failureText cmd)).
Proof.
  destruct o as [[d]|reason]; simpl.
  - intros _. by destruct d.
  - unfold errorMessageOf. destruct (Js.response reason) as [r|]; [|done].
    destruct (Js.truthy (Js.getOpt (Js.data r) "detail")) eqn:Hd; [done|].
    intros _. unfold Js.or at 2. by rewrite Hd.
Qed.

(** ** The settlement of a cycle *)

(** Setting [loading] leaves the slots and the connectivity flag alone. *)
Lemma with_loading_id s : with_loading (loading s) s = s.
Proof. by destruct s. Qed.

Lemma slot_with_loading src l s : slot src (with_loading l s) = slot src s.
Proof. by destruct src. Qed.

(** What the settlement of a cycle does to the provider: the commits of
    [refreshData], then (for a cycle started by a command) the reset of
    [loading]; the call completes normally. *)
Lemma polling_settle p call outcomes :
  polling p call →
  length outcomes = 5 →
  ∃ p' l v, settle call outcomes p = Some p'
            ∧ state p' = with_loading l (after (refreshData_resume outcomes) (state p))
            ∧ toasts p' = toasts p
            ∧ network p' = network p
            ∧ results p' = results p ++ [(call, inr v)]
            ∧ pending p' = delete call (pending p)
            ∧ timers p' = timers p
            ∧ updateInterval p' = updateInterval p
            ∧ clock p' = clock p.
Proof.
  intros Hpoll Hlen.
  destruct (refreshData_resume_completes outcomes Hlen) as (Ht & Ha & Hc).
  destruct Hpoll as [Hs|[Hs|(cmd & o & Hok & Hs)]].
  - rewrite (settle_suspended _ _ _ _ Hs) by done.
    eexists _, (loading _), _. split; [reflexivity|].
    rewrite exec_state, exec_toasts, exec_network, exec_results, exec_pending,
      exec_timers, exec_updateInterval, exec_clock.
    change (continuation refreshData outcomes) with (refreshData_resume outcomes).
    rewrite Ht, Ha, Hc, with_loading_id. unfold issued. simpl.
    by rewrite !app_nil_r.
  - rewrite (settle_suspended _ _ _ _ Hs) by done.
    eexists _, (loading _), _. split; [reflexivity|].
    rewrite exec_state, exec_toasts, exec_network, exec_results, exec_pending,
      exec_timers, exec_updateInterval, exec_clock.
    change (continuation intervalCallback outcomes)
      with (await_call (refreshData_resume outcomes) (fun _ => Done)).
    unfold after.
    rewrite dispatched_await_call_done, toasted_await_call_done,
      awaited_await_call_done, completion_await_call_done, Ht, Ha, Hc.
    fold (after (refreshData_resume outcomes) (state (with_pending (delete call (pending p)) p))).
    rewrite with_loading_id. unfold issued. simpl. by rewrite !app_nil_r.
  - destruct (command_succeeds cmd o Hok) as (_ & _ & Hreq & _).
    destruct (command_refreshed cmd o outcomes Hok Hlen) as (Hd2 & Ht2 & Ha2 & Hc2).
    rewrite (settle_suspended _ _ _ _ Hs) by (by rewrite Hreq).
    eexists _, false, _. split; [reflexivity|].
    rewrite exec_state, exec_toasts, exec_network, exec_results, exec_pending,
      exec_timers, exec_updateInterval, exec_clock.
    unfold after. rewrite Hd2, Ht2, Ha2, Hc2, foldl_app. unfold issued. simpl.
    by rewrite reduce_eq, !app_nil_r.
Qed.

(** ** The reducer: frame condition and object identity *)

(** The [default] branch hands back its argument: on an action of no
    declared type the result is the input object, not a new one. *)
Lemma reducer_default_returns_input_object :
  [initialState] !! 0 = Some initialState
  ∧ simulationReducer [initialState] 0 (UNRECOGNIZED "RESET") = Some ([initialState], 0)
  ∧ ¬ returns_new_object [initialState] 0 (UNRECOGNIZED "RESET").
Proof.
  repeat split. intros (h' & r & H & Hnew).
  simpl in H. injection H as <- <-. discriminate Hnew.
Qed.

(** Claim C9, amended.  For every store, every live state object and
    every action, the reducer returns a state object and modifies no
    object of the store.  On each of the nine declared action types the
    returned object is newly allocated; on an unrecognized action type it
    is the input object itself.  Only the field the action is aimed at may
    differ from the input, and for UPDATE_REALTIME_DATA and an
    unrecognized action type every field of the result equals the
    corresponding field of the input. *)
Theorem reducer_frame (h : Store) (state : Ref) (action : SimulationAction)
    (s : SimulationState) :
  h !! state = Some s →
  ∃ h' r s',
    simulationReducer h state action = Some (h', r)
    ∧ h' !! r = Some s'
    ∧ (∀ a o, h !! a = Some o → h' !! a = Some o)
    ∧ (if recognized action then h !! r = None else r = state ∧ h' = h)
    ∧ (∀ f, target action ≠ Some f → same_field f s s')
    ∧ (target action = None → s' = s).
Proof.
  intros Hs.
  assert (Halloc : ∀ o, (h ++ [o]) !! length h = Some o).
  { intros o. rewrite lookup_app_r by lia. by rewrite Nat.sub_diag. }
  assert (Hkeep : ∀ o a o', h !! a = Some o' → (h ++ [o]) !! a = Some o').
  { intros o a o' Ha. by apply lookup_app_l_Some. }
  assert (Hfresh : h !! length h = None) by (by apply lookup_ge_None).
  destruct action; simpl; rewrite ?Hs; simpl;
    (eexists _, _, _; split; [reflexivity|]; split; [by eauto|]; split; [by eauto|];
     split; [by auto|]; split; [|by auto]);
    intros []; simpl; congruence.
Qed.

Lemma reducer_frame_witness :
  ∃ h' r s',
    simulationReducer [initialState] 0 (SET_LOADING true) = Some (h', r)
    ∧ h' !! r = Some s'
    ∧ (∀ a o, [initialState] !! a = Some o → h' !! a = Some o)
    ∧ (if recognized (SET_LOADING true)
       then [initialState] !! r = None else r = 0 ∧ h' = [initialState])
    ∧ (∀ f, target (SET_LOADING true) ≠ Some f → same_field f initialState s')
    ∧ (target (SET_LOADING true) = None → s' = initialState).
Proof. apply (reducer_frame [initialState] 0 (SET_LOADING true) initialState). reflexivity. Defined.

(** ** Polling cycles *)

(** Rejected fetches are isolated.  In every cycle, scheduled or on
    demand, the settlement of the five fetches resumes the cycle, which
    then completes normally, whichever fetches failed; the slot of every
    rejected source keeps its previous value; and, when the agents
    response can be read, every fulfilled result is committed to its
    slot whichever other fetches were rejected. *)
Lemma settle_all_isolation (p : Provider) (call : nat) (outcomes : list Settled) :
  polling p call →
  length outcomes = 5 →
  ∃ p', step p (Settle call outcomes) = Some p'
        ∧ pending p' !! call = None
        ∧ (∃ v, results p' = results p ++ [(call, inr v)])
        ∧ (∀ src reason,
              outcome src outcomes = Some (Rejected reason) →
              slot src (state p') = slot src (state p))
        ∧ (∀ src value,
              agents_readable outcomes = true →
              outcome src outcomes = Some (Fulfilled value) →
              slot src (state p') = payload src value).
Proof.
  intros Hpoll Hlen.
  destruct (polling_settle p call outcomes Hpoll Hlen)
    as (p' & l & v & Hstep & Hstate & _ & _ & Hres & Hpend & _).
  exists p'. simpl. split; [done|]. split.
  { rewrite Hpend. apply lookup_delete_eq. }
  split; [by exists v|]. rewrite Hstate. split.
  - intros src reason Hsrc. rewrite slot_with_loading.
    by eapply refreshData_resume_retains.
  - intros src value Hread Hsrc. rewrite slot_with_loading.
    by apply refreshData_resume_commits.
Qed.

Lemma settle_all_isolation_witness :
  polling mounted 0
  ∧ length scenario_outcomes = 5
  ∧ ∃ p', step mounted (Settle 0 scenario_outcomes) = Some p'
          ∧ pending p' !! 0 = None
          ∧ (∃ v, results p' = results mounted ++ [(0, inr v)])
          ∧ (∀ src reason,
                outcome src scenario_outcomes = Some (Rejected reason) →
                slot src (state p') = slot src (state mounted))
          ∧ (∀ src value,
                agents_readable scenario_outcomes = true →
                outcome src scenario_outcomes = Some (Fulfilled value) →
                slot src (state p') = payload src value).
Proof.
  assert (Hpoll : polling mounted 0) by (left; reflexivity).
  split; [exact Hpoll|]. split; [reflexivity|].
  apply (settle_all_isolation mounted 0 scenario_outcomes Hpoll). reflexivity.
Defined.

Example scenario_network_fails :
  state <$> step mounted (Settle 0 scenario_outcomes)
  = Some {| status := Js.Obj [("state", Js.Str "running")];
            agents := Js.Arr [Js.Str "a1"];
            networkData := Js.Null;
            economicData := Js.Null;
            culturalData := Js.Null;
            loading := false;
            error := Js.Null;
            connected := true |}.
Proof. vm_compute. reflexivity. Qed.

(** Claim C2.  The isolation breaks on an agents response that is
    fulfilled with the body [null].  In this cycle the status, economy
    and culture reads are fulfilled with a body and the network read is
    rejected.  Reading [.agents] of the [null] body throws, and the
    throw lands in the [catch] of the whole cycle: the economy and
    culture results are not committed although their fetches succeeded,
    [connected] is cleared although the status result has been
    committed, and [error] holds the TypeError's text.  The cycle itself
    completes normally. *)
Theorem unreadable_agents_breaks_isolation :
  polling mounted 0
  ∧ length unreadable_agents_cycle = 5
  ∧ outcome Economy unreadable_agents_cycle
    = Some (ok (Js.Obj [("total_trades", Js.Str "12")]))
  ∧ outcome Culture unreadable_agents_cycle = Some (ok (Js.Obj [("myths", Js.Arr [])]))
  ∧ state <$> step mounted (Settle 0 unreadable_agents_cycle)
    = Some {| status := status_in "running";
              agents := Js.Arr [];
              networkData := Js.Null;
              economicData := Js.Null;
              culturalData := Js.Null;
              loading := false;
              error := Js.Str (Js.message (Js.typeError Js.Null "agents"));
              connected := false |}
  ∧ results <$> step mounted (Settle 0 unreadable_agents_cycle)
    = Some [(0, inr Js.Undefined)].
Proof.
  split; [left; reflexivity|]. split; [reflexivity|].
  split; [reflexivity|]. split; [reflexivity|].
  split; vm_compute; reflexivity.
Qed.

(** With a fulfilled status read failing to arrive, the flag stays as
    the cycle found it. *)
Lemma failed_status_leaves_connected p call outcomes reason :
  polling p call →
  length outcomes = 5 →
  agents_readable outcomes = true →
  outcome Status outcomes = Some (Rejected reason) →
  ∃ p', step p (Settle call outcomes) = Some p'
        ∧ connected (state p') = connected (state p).
Proof.
  intros Hpoll Hlen Hread Hst.
  destruct (polling_settle p call outcomes Hpoll Hlen)
    as (p' & l & v & Hstep & Hstate & _).
  exists p'. split; [done|]. rewrite Hstate. simpl.
  by rewrite refreshData_resume_connected, Hread, Hst.
Qed.

(** Claim C3, at the input where the code departs from it.  After the
    mount cycle, in which the status read succeeds, [connected] is true;
    after a second cycle in which all five reads fail and which completes,
    [connected] is still true. *)
Theorem connected_survives_failed_cycle :
  (connected ∘ state) <$> run mounted [Settle 0 first_cycle] = Some true
  ∧ results <$> run mounted [Settle 0 first_cycle; CallRefreshData; Settle 1 all_failed]
    = Some [(0, inr Js.Undefined); (1, inr Js.Undefined)]
  ∧ (connected ∘ state)
      <$> run mounted [Settle 0 first_cycle; CallRefreshData; Settle 1 all_failed]
    = Some true.
Proof. repeat split; vm_compute; reflexivity. Qed.

(** ** The agents slot *)

(** A fulfilled agents read whose body carries a text under [agents]:
    the text is what the slot holds afterwards. *)
Lemma agents_slot_not_a_list :
  (agents ∘ state) <$> step mounted (Settle 0 agents_as_text) = Some (Js.Str "none")
  ∧ Js.isArray (Js.Str "none") = false.
Proof. split; vm_compute; reflexivity. Qed.

(** Claim C10, amended.  When the agents read fulfills with a body other
    than [null] and [undefined], the refresh commits to the agents slot
    the empty list if the body has no [agents] member or that member is
    null, undefined or otherwise falsy, and the member as received if it
    is truthy.  So after such a fetch the slot is never null or
    undefined, and it is a list whenever the member is a list or falsy. *)
Theorem agents_default (p : Provider) (call : nat) (outcomes : list Settled)
    (value : Js.Response) :
  polling p call →
  length outcomes = 5 →
  outcome Agents outcomes = Some (Fulfilled value) →
  Js.nullish (Js.data value) = false →
  ∃ p', step p (Settle call outcomes) = Some p'
        ∧ (∀ props, Js.data value = Js.Obj props →
                    Js.lookupProp props "agents" = None →
                    agents (state p') = Js.Arr [])
        ∧ (Js.truthy (Js.getOpt (Js.data value) "agents") = false →
           agents (state p') = Js.Arr [])
        ∧ (Js.truthy (Js.getOpt (Js.data value) "agents") = true →
           agents (state p') = Js.getOpt (Js.data value) "agents")
        ∧ Js.nullish (agents (state p')) = false
        ∧ (Js.isArray (Js.getOpt (Js.data value) "agents")
           || negb (Js.truthy (Js.getOpt (Js.data value) "agents")) = true →
           Js.isArray (agents (state p')) = true).
Proof.
  intros Hpoll Hlen Hsrc Hbody.
  destruct (polling_settle p call outcomes Hpoll Hlen)
    as (p' & l & v & Hstep & Hstate & _).
  assert (Hread : agents_readable outcomes = true).
  { unfold agents_readable. by rewrite Hsrc, Hbody. }
  pose proof (refreshData_resume_commits outcomes Agents value (state p) Hlen Hread Hsrc)
    as Hcommit.
  rewrite <- (slot_with_loading Agents l), <- Hstate in Hcommit. simpl in Hcommit.
  exists p'. split; [done|]. rewrite Hcommit. unfold Js.or.
  split.
  { intros props -> Hnone. unfold Js.getOpt. simpl. by rewrite Hnone. }
  generalize (Js.getOpt (Js.data value) "agents"). intros member.
  destruct (Js.truthy member) eqn:Htruthy; repeat split; try done.
  - by destruct member.
  - by destruct member.
Qed.

Lemma agents_default_witness :
  polling mounted 0
  ∧ length [networkError; ok (Js.Obj []); networkError; networkError; networkError] = 5
  ∧ outcome Agents [networkError; ok (Js.Obj []); networkError; networkError; networkError]
    = Some (Fulfilled (Js.mkResponse (Js.Obj [])))
  ∧ Js.nullish (Js.Obj []) = false
  ∧ ∃ p', step mounted
            (Settle 0 [networkError; ok (Js.Obj []); networkError; networkError; networkError])
          = Some p'
          ∧ agents (state p') = Js.Arr [].
Proof.
  assert (Hpoll : polling mounted 0) by (left; reflexivity).
  split; [exact Hpoll|]. do 3 (split; [reflexivity|]).
  destruct (agents_default mounted 0
              [networkError; ok (Js.Obj []); networkError; networkError; networkError]
              (Js.mkResponse (Js.Obj [])) Hpoll eq_refl eq_refl eq_refl)
    as (p' & Hstep & Habsent & _).
  exists p'. split; [exact Hstep|]. exact (Habsent [] eq_refl eq_refl).
Defined.

(** ** Results of cycles that overlap *)

(** While one cycle settles, the others stay suspended as they were. *)
Lemma settle_keeps_others p call outcomes p' other :
  settle call outcomes p = Some p' →
  other ≠ call →
  pending p' !! other = pending p !! other.
Proof.
  intros (reqs & k & _ & _ & ->)%settle_inv Hne.
  rewrite exec_pending. simpl.
  destruct (completion (k outcomes)).
  - by rewrite lookup_delete_ne.
  - rewrite lookup_insert_ne by done. by rewrite lookup_delete_ne.
Qed.

Lemma settle_keeps_polling p call outcomes p' other :
  settle call outcomes p = Some p' →
  other ≠ call →
  polling p other →
  polling p' other.
Proof.
  intros Hstep Hne. unfold polling, suspended_in.
  by rewrite (settle_keeps_others _ _ _ _ _ Hstep Hne).
Qed.

(** With the interval running, two ticks put cycles 0 and 1 in flight;
    cycle 1 settles first and its status payload is stored; when cycle 0
    settles afterwards, its older payload replaces it. *)
Lemma overlapping_cycles :
  ∃ p p1 p2,
    run initialProvider overlapping_events = Some p
    ∧ polling p 0 ∧ polling p 1
    ∧ step p (Settle 1 newer) = Some p1
    ∧ step p1 (Settle 0 older) = Some p2
    ∧ slot Status (state p1) = tick 8
    ∧ slot Status (state p2) = tick 7.
Proof.
  eexists _, _, _.
  split; [vm_compute; reflexivity|].
  split; [right; left; vm_compute; reflexivity|].
  split; [right; left; vm_compute; reflexivity|].
  split; [vm_compute; reflexivity|].
  split; [vm_compute; reflexivity|].
  split; vm_compute; reflexivity.
Qed.

Lemma stale_result_overwrites :
  ∃ p, run initialProvider overlapping_events = Some p
       ∧ polling p 0 ∧ polling p 1 ∧ 0 < 1
       ∧ ¬ stale_write_rejected p 0 1 older newer.
Proof.
  destruct overlapping_cycles as (p & p1 & p2 & Hrun & H0 & H1 & Hs1 & Hs2 & Hv1 & Hv2).
  exists p. split; [exact Hrun|]. split; [exact H0|]. split; [exact H1|].
  split; [lia|].
  intros Hclaim. specialize (Hclaim p1 p2 Hs1 Hs2 Status).
  rewrite Hv1, Hv2 in Hclaim. discriminate Hclaim.
Qed.

(** Claim C1, amended.  The store keeps no cycle id and the reducer
    compares none: results are applied in the order in which the cycles
    settle.  For cycles [c1 < c2] both in flight, when [c1] settles after
    the results of [c2] have been committed, every fulfilled result of
    [c1] replaces the payload of its slot (given a readable agents
    response), and only the slots of its failed fetches keep what [c2]
    committed. *)
Theorem results_applied_in_arrival_order (p : Provider) (c1 c2 : nat)
    (o1 o2 : list Settled) (p1 : Provider) :
  c1 < c2 →
  polling p c1 →
  polling p c2 →
  length o1 = 5 →
  step p (Settle c2 o2) = Some p1 →
  ∃ p2, step p1 (Settle c1 o1) = Some p2
        ∧ (∀ src value,
              agents_readable o1 = true →
              outcome src o1 = Some (Fulfilled value) →
              slot src (state p2) = payload src value)
        ∧ (∀ src reason,
              outcome src o1 = Some (Rejected reason) →
              slot src (state p2) = slot src (state p1)).
Proof.
  intros Hlt Hc1 _ Hlen Hstep. simpl in Hstep.
  assert (Hc1' : polling p1 c1).
  { eapply settle_keeps_polling; [exact Hstep|lia|exact Hc1]. }
  destruct (polling_settle p1 c1 o1 Hc1' Hlen) as (p2 & l & v & Hstep2 & Hstate & _).
  exists p2. split; [done|]. rewrite Hstate. split.
  - intros src value Hread Hsrc. rewrite slot_with_loading.
    by apply refreshData_resume_commits.
  - intros src reason Hsrc. rewrite slot_with_loading.
    by eapply refreshData_resume_retains.
Qed.

Lemma results_applied_in_arrival_order_witness :
  0 < 1
  ∧ polling two_cycles 0
  ∧ polling two_cycles 1
  ∧ length older = 5
  ∧ ∃ p1, step two_cycles (Settle 1 newer) = Some p1
          ∧ slot Status (state p1) = tick 8
          ∧ ∃ p2, step p1 (Settle 0 older) = Some p2
                  ∧ slot Status (state p2) = tick 7.
Proof.
  assert (H0 : polling two_cycles 0) by (left; vm_compute; reflexivity).
  assert (H1 : polling two_cycles 1) by (left; vm_compute; reflexivity).
  split; [lia|]. split; [exact H0|]. split; [exact H1|]. split; [reflexivity|].
  eexists. split; [vm_compute; reflexivity|]. split; [vm_compute; reflexivity|].
  match goal with
  | |- ∃ p2, step ?p1 _ = _ ∧ _ =>
      destruct (results_applied_in_arrival_order two_cycles 0 1 older newer p1)
        as (p2 & Hstep & Hcommit & _);
      [lia|exact H0|exact H1|reflexivity|vm_compute; reflexivity|]
  end.
  exists p2. split; [exact Hstep|].
  exact (Hcommit Status (Js.mkResponse (tick 7)) eq_refl eq_refl).
Defined.

(** ** Invariants of the event loop *)

Lemma invoke_timers body p : timers (invoke body p) = timers p.
Proof. unfold invoke. by rewrite exec_timers. Qed.

Lemma invoke_updateInterval body p : updateInterval (invoke body p) = updateInterval p.
Proof. unfold invoke. by rewrite exec_updateInterval. Qed.

Lemma invoke_calls_ok body p : calls_ok p → calls_ok (invoke body p).
Proof.
  unfold calls_ok, invoke. intros Hok call.
  rewrite exec_pending, exec_nextCall. simpl.
  destruct (completion body).
  - intros H%Hok. lia.
  - destruct (decide (call = nextCall p)) as [->|Hne]; [lia|].
    rewrite lookup_insert_ne by done. intros H%Hok. lia.
Qed.

Lemma settle_timers call outcomes p p' :
  settle call outcomes p = Some p' →
  timers p' = timers p ∧ updateInterval p' = updateInterval p.
Proof.
  intros (reqs & k & _ & _ & ->)%settle_inv.
  by rewrite exec_timers, exec_updateInterval.
Qed.

Lemma settle_calls_ok call outcomes p p' :
  settle call outcomes p = Some p' → calls_ok p → calls_ok p'.
Proof.
  intros (reqs & k & Hcall & _ & ->)%settle_inv Hok other.
  rewrite exec_pending, exec_nextCall. simpl.
  destruct (completion (k outcomes)).
  - destruct (decide (other = call)) as [->|Hne].
    + rewrite lookup_delete_eq. by intros [? ?].
    + rewrite lookup_delete_ne by done. apply Hok.
  - destruct (decide (other = call)) as [->|Hne].
    + intros _. apply Hok. by rewrite Hcall.
    + rewrite lookup_insert_ne by done. rewrite lookup_delete_ne by done. apply Hok.
Qed.

Lemma start_timers_ok captured p :
  timers_ok p → timers_ok (startRealTimeUpdates captured p).
Proof.
  unfold timers_ok, startRealTimeUpdates. destruct captured; simpl; [done|].
  intros Hok t [Hin|Hin]%elem_of_app.
  - apply Hok in Hin. lia.
  - apply list_elem_of_singleton in Hin as ->. simpl. lia.
Qed.

Lemma stop_timers_ok captured p :
  timers_ok p → timers_ok (stopRealTimeUpdates captured p).
Proof.
  unfold timers_ok, stopRealTimeUpdates, clearInterval.
  destruct captured; simpl; [|done].
  intros Hok t [_ Hin]%list_elem_of_filter. by apply Hok.
Qed.

Lemma fire_inv h p p' :
  fire h p = Some p' →
  mkTimer h (clock p) ∈ timers p
  ∧ p' = invoke intervalCallback
           (with_timers
              (map (fun t => if decide (handle t = h)
                             then mkTimer h (due t + period) else t)
                   (timers p)) p).
Proof. unfold fire. case_decide; [|done]. by intros [= <-]. Qed.

(** A timer of the list after a tick of [h] comes from a timer with the
    same handle before it: the one that fired, one period earlier, or a
    timer the tick did not touch. *)
Lemma rescheduled_inv h t ts :
  t ∈ map (fun t => if decide (handle t = h)
                    then mkTimer h (due t + period) else t) ts →
  (handle t = h ∧ ∃ d, mkTimer h d ∈ ts ∧ due t = d + period)
  ∨ (handle t ≠ h ∧ t ∈ ts).
Proof.
  intros (t' & -> & Hin)%list_elem_of_fmap. case_decide as Hh.
  - left. split; [done|]. exists (due t'). split; [|done].
    destruct t' as [h' d']. simpl in *. by subst h'.
  - by right.
Qed.

Lemma step_timers_ok p e p' : step p e = Some p' → timers_ok p → timers_ok p'.
Proof.
  destruct e; simpl.
  - intros [= <-]. unfold timers_ok, invoke.
    by rewrite exec_timers, exec_nextHandle.
  - intros [= <-]. unfold timers_ok, invoke.
    by rewrite exec_timers, exec_nextHandle.
  - intros [= <-]. unfold timers_ok, invoke.
    by rewrite exec_timers, exec_nextHandle.
  - intros [= <-]. apply start_timers_ok.
  - intros [= <-]. apply stop_timers_ok.
  - unfold elapse. case_decide; [|done]. by intros [= <-].
  - intros [_ ->]%fire_inv Hok t. unfold invoke.
    rewrite exec_timers, exec_nextHandle. simpl.
    intros [[Hh (d & Hin & _)]|[_ Hin]]%rescheduled_inv.
    + rewrite Hh. by apply Hok in Hin.
    + by apply Hok.
  - intros (reqs & k & _ & _ & ->)%settle_inv. unfold timers_ok.
    by rewrite exec_timers, exec_nextHandle.
Qed.

Lemma step_calls_ok p e p' : step p e = Some p' → calls_ok p → calls_ok p'.
Proof.
  destruct e; simpl.
  - intros [= <-]. apply invoke_calls_ok.
  - intros [= <-]. apply invoke_calls_ok.
  - intros [= <-]. apply invoke_calls_ok.
  - intros [= <-]. unfold startRealTimeUpdates. by destruct captured.
  - intros [= <-]. unfold stopRealTimeUpdates. by destruct captured.
  - unfold elapse. case_decide; [|done]. by intros [= <-].
  - intros [_ ->]%fire_inv Hok. by apply invoke_calls_ok.
  - apply settle_calls_ok.
Qed.

Lemma reachable_ok p : reachable p → timers_ok p ∧ calls_ok p.
Proof.
  induction 1 as [|p p' e _ [IHt IHc] Hstep].
  - split.
    + intros t Hin. by apply not_elem_of_nil in Hin.
    + intros call [? H]. simpl in H. by rewrite lookup_empty in H.
  - split; [by eapply step_timers_ok|by eapply step_calls_ok].
Qed.

Lemma run_reachable events : ∀ p p', reachable p → run p events = Some p' → reachable p'.
Proof.
  induction events as [|e rest IH]; intros p p' Hp; simpl.
  - by intros [= <-].
  - destruct (step p e) as [q|] eqn:Hq; [|done]. simpl.
    apply IH. by eapply reachable_step.
Qed.

(** ** Starting the interval twice *)

(** The timer a [start()] creates is not among those that existed. *)
Lemma fresh_handle p :
  timers_ok p → filter (fun t => handle t ≠ nextHandle p) (timers p) = timers p.
Proof.
  unfold timers_ok. induction (timers p) as [|t ts IH]; intros Hok; [done|].
  rewrite filter_cons_True.
  - f_equal. apply IH. intros t' Hin. apply Hok. by right.
  - specialize (Hok t (list_elem_of_here _ _)). lia.
Qed.

(** Claim C8.  Two calls of [start()] made through closures that both
    captured [null] each create a timer: the guard of the second call
    tests the value its closure captured, not the cell the first call
    has just written.  That is what happens when [handleInitialize]
    resumes after its [await] while polling has been started in the
    meantime.  Both timers then tick, each starting a cycle, and the
    [stop()] of the latest render clears only the second: the first
    keeps polling. *)
Theorem second_start_creates_second_timer :
  (∀ p, timers (startRealTimeUpdates None (startRealTimeUpdates None p))
        = timers p ++ [ mkTimer (nextHandle p) (clock p + period);
                        mkTimer (S (nextHandle p)) (clock p + period) ])
  ∧ (∃ p, run initialProvider stale_start_events = Some p
          ∧ timers p = [mkTimer 1 2000; mkTimer 2 2000]
          ∧ updateInterval p = Some 2
          ∧ timers (stopRealTimeUpdates (updateInterval p) p) = [mkTimer 1 2000]
          ∧ cycleStarts <$> run p [Elapse 2000; TimerFire 1; TimerFire 2]
            = Some [0; 2000; 2000]
          ∧ cycleStarts
            <$> run p [CallStopRealTimeUpdates (updateInterval p);
                        Elapse 2000; TimerFire 1; Elapse 2000; TimerFire 1]
            = Some [0; 2000; 4000]).
Proof.
  split.
  - intros p. unfold startRealTimeUpdates, setInterval. simpl.
    by rewrite <- app_assoc.
  - eexists. split; [vm_compute; reflexivity|].
    split; [vm_compute; reflexivity|].
    split; [vm_compute; reflexivity|].
    split; [vm_compute; reflexivity|].
    split; vm_compute; reflexivity.
Qed.

(** ** Results that arrive after [stop()] *)

Lemma stop_keeps_pending captured p :
  pending (stopRealTimeUpdates captured p) = pending p.
Proof. unfold stopRealTimeUpdates. by destruct captured. Qed.

Lemma stop_keeps_state captured p :
  state (stopRealTimeUpdates captured p) = state p.
Proof. unfold stopRealTimeUpdates. by destruct captured. Qed.

(** A settlement does the same to the reducer state after [stop()] as
    before it. *)
Lemma settle_after_stop captured call outcomes p p' :
  settle call outcomes p = Some p' →
  ∃ q', settle call outcomes (stopRealTimeUpdates captured p) = Some q'
        ∧ state q' = state p'.
Proof.
  intros (reqs & k & Hcall & Hlen & ->)%settle_inv.
  unfold settle. rewrite stop_keeps_pending, Hcall, decide_True by done.
  eexists. split; [reflexivity|]. rewrite !exec_state. simpl.
  by rewrite stop_keeps_state.
Qed.

(** Cycle 0 is started by the first tick; [stop()] follows; then the
    reads of cycle 0 settle and are committed. *)
Lemma late_result_after_stop :
  ∃ p q q',
    run initialProvider first_tick_events = Some p
    ∧ polling p 0
    ∧ step p (CallStopRealTimeUpdates (updateInterval p)) = Some q
    ∧ timers q = []
    ∧ step q (Settle 0 first_cycle) = Some q'
    ∧ state q = initialState
    ∧ state q' = with_connected true (with_status (Js.Obj [("state", Js.Str "running")])
                                                  initialState).
Proof.
  eexists _, _, _.
  split; [vm_compute; reflexivity|].
  split; [right; left; vm_compute; reflexivity|].
  split; [vm_compute; reflexivity|].
  split; [vm_compute; reflexivity|].
  split; [vm_compute; reflexivity|].
  split; vm_compute; reflexivity.
Qed.

Lemma stop_does_not_discard_late_result :
  ∃ p, run initialProvider first_tick_events = Some p
       ∧ polling p 0
       ∧ ¬ no_mutation_after_stop p 0 first_cycle.
Proof.
  destruct late_result_after_stop
    as (p & q & q' & Hrun & Hpoll & Hq & _ & Hq' & Hs & Hs').
  exists p. split; [exact Hrun|]. split; [exact Hpoll|].
  intros Hclaim. specialize (Hclaim q q' Hq Hq').
  rewrite Hs, Hs' in Hclaim. discriminate Hclaim.
Qed.

(** Claim C5, amended.  [stop()] clears the interval timer whose handle
    it holds and nothing else: that timer no longer exists and cannot
    tick, every other timer, the reducer state and the calls in flight
    are as before, and a [stop()] that holds no handle changes nothing
    at all.  A cycle dispatched before [stop()] whose reads settle
    afterwards is committed exactly as it would have been without the
    [stop()]. *)
Theorem stop_only_clears_timer (p : Provider) (captured : option nat) :
  ∃ q, step p (CallStopRealTimeUpdates captured) = Some q
       ∧ (∀ t, t ∈ timers q ↔ t ∈ timers p ∧ Some (handle t) ≠ captured)
       ∧ (∀ h, captured = Some h →
               updateInterval q = None ∧ step q (TimerFire h) = None)
       ∧ (captured = None → q = p)
       ∧ state q = state p
       ∧ pending q = pending p
       ∧ (∀ call outcomes,
             polling p call →
             length outcomes = 5 →
             ∃ p' q', step p (Settle call outcomes) = Some p'
                      ∧ step q (Settle call outcomes) = Some q'
                      ∧ state q' = state p'
                      ∧ ∀ src, slot src (state q')
                               = slot src (after (refreshData_resume outcomes) (state q))).
Proof.
  exists (stopRealTimeUpdates captured p). split; [reflexivity|].
  split.
  { intros t. unfold stopRealTimeUpdates, clearInterval.
    destruct captured as [h|]; simpl.
    - rewrite list_elem_of_filter. split.
      + intros [Hne Hin]. split; [done|]. intros [= Heq]. by apply Hne.
      + intros [Hin Hne]. split; [|done]. intros Heq. apply Hne. by rewrite Heq.
    - split; [by intros Hin|by intros [Hin _]]. }
  split.
  { intros h ->. split; [reflexivity|]. simpl. unfold fire, clearInterval. simpl.
    rewrite decide_False; [done|].
    intros [Hne _]%list_elem_of_filter. by apply Hne. }
  split; [by intros ->|].
  split; [apply stop_keeps_state|].
  split; [apply stop_keeps_pending|].
  intros call outcomes Hpoll Hlen.
  destruct (polling_settle p call outcomes Hpoll Hlen) as (p' & l & v & Hp' & Hsp' & _).
  destruct (settle_after_stop captured _ _ _ _ Hp') as (q' & Hq' & Hsq').
  exists p', q'. split; [exact Hp'|]. split; [exact Hq'|]. split; [exact Hsq'|].
  intros src. by rewrite Hsq', Hsp', slot_with_loading, stop_keeps_state.
Qed.

Lemma stop_only_clears_timer_witness :
  ∃ p, run initialProvider first_tick_events = Some p
       ∧ polling p 0
       ∧ length first_cycle = 5
       ∧ ∃ q p' q',
           step p (CallStopRealTimeUpdates (Some 1)) = Some q
           ∧ updateInterval q = None
           ∧ step q (TimerFire 1) = None
           ∧ step p (Settle 0 first_cycle) = Some p'
           ∧ step q (Settle 0 first_cycle) = Some q'
           ∧ state q' = state p'.
Proof.
  eexists. split; [vm_compute; reflexivity|].
  match goal with |- polling ?P 0 ∧ _ => set (p := P) end.
  assert (Hpoll : polling p 0) by (right; left; vm_compute; reflexivity).
  split; [exact Hpoll|]. split; [reflexivity|].
  destruct (stop_only_clears_timer p (Some 1))
    as (q & Hq & _ & Hfire & _ & _ & _ & Hlate).
  destruct (Hlate 0 first_cycle Hpoll eq_refl) as (p' & q' & Hp' & Hq' & Hs & _).
  destruct (Hfire 1 eq_refl) as [Hu Hnone].
  exists q, p', q'.
  split; [exact Hq|]. split; [exact Hu|]. split; [exact Hnone|].
  split; [exact Hp'|]. split; [exact Hq'|]. exact Hs.
Defined.

(** ** On-demand cycles and the interval *)

Lemma cycleStarts_app p call reqs :
  omap (fun '(t, _, r) => if is_status_read r then Some t else None)
       (network p ++ issued p call reqs)
  = cycleStarts p
    ++ omap (fun r => if is_status_read r then Some (clock p) else None) reqs.
Proof.
  unfold cycleStarts, issued. rewrite omap_app. f_equal.
  induction reqs as [|r reqs IH]; simpl; [done|].
  destruct (is_status_read r); [f_equal|]; exact IH.
Qed.

(** A call of [body] starts a cycle iff it issues the status read. *)
Lemma invoke_cycleStarts body p :
  cycleStarts (invoke body p)
  = cycleStarts p
    ++ omap (fun r => if is_status_read r then Some (clock p) else None) (awaited body).
Proof.
  unfold invoke. unfold cycleStarts at 1. rewrite exec_network.
  apply (cycleStarts_app (with_nextCall (S (nextCall p)) p)).
Qed.

(** The interval fires at 2000 although the cycle triggered by the
    command began at 500. *)
Lemma command_then_tick :
  cycleStarts <$> run initialProvider command_events = Some [500; 2000].
Proof. vm_compute. reflexivity. Qed.

Lemma cadence_broken_by_command :
  ∃ p, run initialProvider command_events = Some p
       ∧ cycleStarts p = [500; 2000]
       ∧ ¬ cadence_respected p.
Proof.
  pose proof command_then_tick as Hstarts.
  destruct (run initialProvider command_events) as [p|]; [|discriminate Hstarts].
  injection Hstarts as Hstarts.
  exists p. split; [reflexivity|]. split; [exact Hstarts|].
  intros Hclaim. specialize (Hclaim 0 500 2000).
  rewrite Hstarts in Hclaim. specialize (Hclaim eq_refl eq_refl).
  unfold period in Hclaim. lia.
Qed.

(** Events other than [start()], [stop()] and a tick leave the timers
    alone. *)
Lemma step_keeps_timers p e p' :
  step p e = Some p' →
  acts_on_timer e = false →
  timers p' = timers p ∧ updateInterval p' = updateInterval p.
Proof.
  intros Hstep Hact. destruct e; try discriminate Hact; simpl in Hstep.
  - injection Hstep as <-. by rewrite invoke_timers, invoke_updateInterval.
  - injection Hstep as <-. by rewrite invoke_timers, invoke_updateInterval.
  - injection Hstep as <-. by rewrite invoke_timers, invoke_updateInterval.
  - unfold elapse in Hstep. case_decide; [|done]. by injection Hstep as <-.
  - by apply settle_timers in Hstep.
Qed.

Lemma invoke_clock body p : clock (invoke body p) = clock p.
Proof. unfold invoke. by rewrite exec_clock. Qed.

Lemma invoke_nextHandle body p : nextHandle (invoke body p) = nextHandle p.
Proof. unfold invoke. by rewrite exec_nextHandle. Qed.

Lemma invoke_on_schedule t0 h body p :
  on_schedule t0 h p → on_schedule t0 h (invoke body p).
Proof. unfold on_schedule. by rewrite invoke_timers, invoke_clock. Qed.

(** Whatever happens, an existing timer stays on its schedule. *)
Lemma step_on_schedule t0 h p e p' :
  step p e = Some p' →
  h < nextHandle p →
  on_schedule t0 h p →
  h < nextHandle p' ∧ on_schedule t0 h p'.
Proof.
  destruct e; simpl.
  - intros [= <-] Hh Hs. rewrite invoke_nextHandle. split; [done|].
    by apply invoke_on_schedule.
  - intros [= <-] Hh Hs. rewrite invoke_nextHandle. split; [done|].
    by apply invoke_on_schedule.
  - intros [= <-] Hh Hs. rewrite invoke_nextHandle. split; [done|].
    by apply invoke_on_schedule.
  - intros [= <-] Hh Hs. unfold startRealTimeUpdates.
    destruct captured; [done|]. simpl. split; [lia|].
    intros d [Hin|Hin]%elem_of_app; [by apply Hs|].
    apply list_elem_of_singleton in Hin. injection Hin as Heq _. lia.
  - intros [= <-] Hh Hs. unfold stopRealTimeUpdates, clearInterval.
    destruct captured; [|done]. simpl. split; [done|].
    intros d [_ Hin]%list_elem_of_filter. by apply Hs.
  - unfold elapse. case_decide as Hdue; [|done]. intros [= <-] Hh Hs.
    split; [done|]. intros d Hin. simpl in *. split; [|by apply Hs].
    rewrite Forall_forall in Hdue. apply (Hdue _ Hin).
  - intros [_ ->]%fire_inv Hh Hs. rewrite invoke_nextHandle. split; [done|].
    apply invoke_on_schedule. intros d. simpl.
    intros [[Heq (d0 & Hin & Hd)]|[_ Hin]]%rescheduled_inv; [|by apply Hs].
    simpl in Heq, Hd. subst h0 d. destruct (Hs d0 Hin) as [Hclock [k Hk]].
    change (clock (with_timers _ p)) with (clock p).
    split; [lia|]. exists (k + 1). lia.
  - intros Hstep Hh Hs.
    destruct (settle_inv _ _ _ _ Hstep) as (reqs & k & _ & _ & ->).
    rewrite exec_nextHandle. split; [done|].
    unfold on_schedule. by rewrite exec_timers, exec_clock.
Qed.

Lemma run_on_schedule t0 h events :
  ∀ p p', run p events = Some p' →
          h < nextHandle p →
          on_schedule t0 h p →
          on_schedule t0 h p'.
Proof.
  induction events as [|e rest IH]; intros p p'; simpl.
  - by intros [= <-].
  - destruct (step p e) as [q|] eqn:Hq; [|done]. simpl. intros Hrun Hh Hs.
    destruct (step_on_schedule _ _ _ _ _ Hq Hh Hs) as [Hh' Hs'].
    by apply (IH q).
Qed.

(** The timer a [start()] creates begins on its schedule. *)
Lemma start_on_schedule p :
  timers_ok p →
  on_schedule (clock p) (nextHandle p) (startRealTimeUpdates None p).
Proof.
  intros Hok d. simpl. intros [Hin|Hin]%elem_of_app.
  - apply Hok in Hin. simpl in Hin. lia.
  - apply list_elem_of_singleton in Hin. injection Hin as ->.
    split; [lia|]. exists 0. lia.
Qed.

(** Claim C6, amended.  An on-demand cycle neither cancels nor
    reschedules an interval timer: no call of an operation other than
    [start()] and [stop()] and no settlement (so neither a command, nor
    its acknowledgement, nor the refresh it triggers) changes a timer,
    and time passing does not either.  The timer that a [start()] at
    time [t0] creates is, for as long as it exists and whatever happens
    in between, due at [t0] plus a positive number of periods, and time
    does not pass that instant before the timer has ticked; each tick
    starts a cycle at that instant and leaves the timer due one period
    later.  So the scheduled cycles occur every 2000 counted from the
    [start()], also less than one period after a triggered cycle. *)
Theorem on_demand_cycle_keeps_schedule :
  (∀ p e p',
      step p e = Some p' →
      acts_on_timer e = false →
      timers p' = timers p ∧ updateInterval p' = updateInterval p)
  ∧ (∀ p0 events p d,
        reachable p0 →
        run (startRealTimeUpdates None p0) events = Some p →
        mkTimer (nextHandle p0) d ∈ timers p →
        clock p ≤ d ∧ ∃ k, d = clock p0 + (k + 1) * period)
  ∧ (∀ p h p',
        step p (TimerFire h) = Some p' →
        mkTimer h (clock p) ∈ timers p
        ∧ mkTimer h (clock p + period) ∈ timers p'
        ∧ cycleStarts p' = cycleStarts p ++ [clock p]).
Proof.
  split; [exact step_keeps_timers|]. split.
  - intros p0 events p d [Hok _]%reachable_ok Hrun.
    apply (run_on_schedule (clock p0) (nextHandle p0) events _ _ Hrun).
    + simpl. lia.
    + by apply start_on_schedule.
  - intros p h p' Hstep. simpl in Hstep.
    apply fire_inv in Hstep as [Hin ->].
    split; [exact Hin|]. rewrite invoke_timers, invoke_cycleStarts. simpl.
    split; [|done].
    apply (list_elem_of_fmap_2' _ _ (mkTimer h (clock p))); [exact Hin|].
    simpl. by rewrite decide_True.
Qed.

Lemma on_demand_cycle_keeps_schedule_witness :
  ∃ p, reachable initialProvider
       ∧ run (startRealTimeUpdates None initialProvider) (tail command_events) = Some p
       ∧ mkTimer (nextHandle initialProvider) 4000 ∈ timers p
       ∧ clock p ≤ 4000
       ∧ ∃ k, 4000 = clock initialProvider + (k + 1) * period.
Proof.
  destruct (run (startRealTimeUpdates None initialProvider) (tail command_events))
    as [q|] eqn:Hq; [|vm_compute in Hq; discriminate Hq].
  assert (Ht : timers <$> run (startRealTimeUpdates None initialProvider)
                              (tail command_events)
               = Some [mkTimer 1 4000]) by (vm_compute; reflexivity).
  rewrite Hq in Ht. injection Ht as Ht.
  assert (Hin : mkTimer (nextHandle initialProvider) 4000 ∈ timers q)
    by (rewrite Ht; apply list_elem_of_here).
  exists q. split; [exact reachable_initial|]. split; [reflexivity|].
  split; [exact Hin|].
  exact (proj1 (proj2 on_demand_cycle_keeps_schedule)
           initialProvider _ q 4000 reachable_initial Hq Hin).
Defined.

(** ** Commands *)

(** The success toast ignores what the remote system answered: the
    message supplied with the acknowledgement is not shown. *)
Lemma remote_success_message_not_shown :
  suspended_in (commandBody (Control "pause")) pausing 0
  ∧ succeeded (Control "pause") acknowledged_with_message = true
  ∧ ∃ p', step pausing (Settle 0 [acknowledged_with_message]) = Some p'
          ∧ toasts p' = [toast_success "Simulation pause successful"]
          ∧ ¬ notified_with (Js.Str "Paused at tick 12") pausing p'.
Proof.
  split; [reflexivity|]. split; [reflexivity|].
  destruct (step pausing (Settle 0 [acknowledged_with_message]))
    as [q|] eqn:Hq; [|vm_compute in Hq; discriminate Hq].
  assert (Ht : toasts <$> step pausing (Settle 0 [acknowledged_with_message])
               = Some [toast_success "Simulation pause successful"])
    by (vm_compute; reflexivity).
  rewrite Hq in Ht. injection Ht as Ht.
  exists q. split; [reflexivity|]. split; [exact Ht|].
  intros (t & Happ & Htext). rewrite Ht in Happ.
  change (toasts pausing) with (@nil ToastCall) in Happ.
  injection Happ as <-. discriminate Htext.
Qed.

(** Claim C7, amended.  For every dispatched command, control or
    initialize: if it settles successfully, its settlement shows one
    success toast and at once issues one refresh of all five sources;
    when that refresh settles, every fulfilled result is committed to its
    slot (given that the agents response can be read) and the call
    completes with [true] without any further toast or call.  If it
    settles as a failure, its settlement issues no call at all, shows one
    error toast and completes with [false].  The success toast is the
    command's fixed success text, whatever the response carries; the
    error toast carries the [detail] of the error response when one is
    supplied and not empty, and otherwise the error's own message or,
    failing that, the command's fixed failure text. *)
Theorem command_notifies_and_resyncs (cmd : Command) (p : Provider) (call : nat)
    (o : Settled) :
  suspended_in (commandBody cmd) p call →
  ∃ p', step p (Settle call [o]) = Some p'
    ∧ if succeeded cmd o
      then toasts p' = toasts p ++ [toast_success (successText cmd)]
           ∧ network p' = network p ++ issued p call refreshRequests
           ∧ results p' = results p
           ∧ suspended_in (continuation (commandBody cmd) [o]) p' call
           ∧ (∀ q outcomes,
                 suspended_in (continuation (commandBody cmd) [o]) q call →
                 length outcomes = 5 →
                 ∃ q', step q (Settle call outcomes) = Some q'
                       ∧ toasts q' = toasts q
                       ∧ network q' = network q
                       ∧ results q' = results q ++ [(call, inr (Js.Bool true))]
                       ∧ (agents_readable outcomes = true →
                          ∀ src value,
                            outcome src outcomes = Some (Fulfilled value) →
                            slot src (state q') = payload src value))
      else ∃ msg,
           toasts p' = toasts p ++ [toast_error msg]
           ∧ network p' = network p
           ∧ results p' = results p ++ [(call, inr (Js.Bool false))]
           ∧ (∀ m, remoteMessage o = Some m → msg = m)
           ∧ (remoteMessage o = None →
              msg = Js.or (Js.Str (Js.message (failure cmd o)))
                          (Js.Str (failureText cmd))).
Proof.
  intros Hs.
  destruct (command_begins cmd) as (_ & _ & Hreq & _).
  cbn [step]. rewrite (settle_suspended _ _ _ _ Hs) by (by rewrite Hreq).
  eexists. split; [reflexivity|].
  unfold suspended_in at 1.
  rewrite exec_toasts, exec_network, exec_results, ?exec_pending.
  destruct (succeeded cmd o) eqn:Hok.
  - destruct (command_succeeds cmd o Hok) as (_ & Ht & Ha & Hc).
    rewrite Ht, Ha, Hc. simpl.
    split; [done|]. split; [done|]. split; [by rewrite app_nil_r|].
    split; [by rewrite lookup_insert_eq|].
    intros q outcomes Hq Hlen.
    destruct (command_refreshed cmd o outcomes Hok Hlen) as (Hd2 & Ht2 & Ha2 & Hc2).
    cbn [step]. rewrite (settle_suspended _ _ _ _ Hq) by (by rewrite Ha).
    eexists. split; [reflexivity|].
    rewrite exec_toasts, exec_network, exec_results, exec_state, Ht2, Ha2, Hc2.
    unfold issued, after. rewrite Hd2, foldl_app.
    cbn [foldl map state with_pending]. rewrite !app_nil_r, reduce_eq.
    split; [done|]. split; [done|]. split; [done|].
    intros Hread src value Hsrc. rewrite slot_with_loading.
    by apply refreshData_resume_commits.
  - destruct (command_fails cmd o Hok) as (_ & Ht & Ha & Hc).
    rewrite Ht, Ha, Hc. unfold issued. simpl. rewrite app_nil_r.
    eexists. split; [reflexivity|]. split; [done|]. split; [done|].
    split; [intros m Hm; by apply errorMessage_remote|apply errorMessage_generic].
Qed.

Lemma command_notifies_and_resyncs_witness :
  suspended_in (commandBody (Control "pause"))
               (invoke (controlSimulation "pause") initialProvider) 0
  ∧ ∃ p' q', step (invoke (controlSimulation "pause") initialProvider)
                  (Settle 0 [ok (Js.Obj [("status", Js.Str "paused")])]) = Some p'
             ∧ toasts p' = [toast_success "Simulation pause successful"]
             ∧ step p' (Settle 0 scenario_outcomes) = Some q'
             ∧ slot Status (state q') = Js.Obj [("state", Js.Str "running")]
             ∧ slot Agents (state q') = Js.Arr [Js.Str "a1"].
Proof.
  assert (Hs : suspended_in (commandBody (Control "pause"))
                 (invoke (controlSimulation "pause") initialProvider) 0)
    by reflexivity.
  split; [exact Hs|].
  destruct (command_notifies_and_resyncs (Control "pause") _ 0
              (ok (Js.Obj [("status", Js.Str "paused")])) Hs)
    as (p' & Hstep & Htoast & _ & _ & Hsusp & Hrefresh).
  destruct (Hrefresh p' scenario_outcomes Hsusp eq_refl)
    as (q' & Hq' & _ & _ & _ & Hcommit).
  exists p', q'. split; [exact Hstep|]. split; [exact Htoast|].
  split; [exact Hq'|]. split.
  - exact (Hcommit eq_refl Status _ eq_refl).
  - exact (Hcommit eq_refl Agents _ eq_refl).
Defined.

(** Two [pause] commands back to back: the second one is sent as well,
    and nothing reports it as busy. *)
Lemma second_command_is_sent :
  ∃ p, step initialProvider (CallControlSimulation "pause") = Some p
       ∧ suspended_in (controlSimulation "pause") p 0
       ∧ network <$> step p (CallControlSimulation "pause")
         = Some [(0, 0, pause_request); (0, 1, pause_request)]
       ∧ results <$> step p (CallControlSimulation "pause") = Some []
       ∧ ¬ busy_rejected p (Control "pause").
Proof.
  eexists. split; [reflexivity|]. split; [reflexivity|].
  split; [reflexivity|]. split; [reflexivity|].
  intros (p' & e & Hstep & _ & Hnet). simpl in Hstep. injection Hstep as <-.
  vm_compute in Hnet. discriminate Hnet.
Qed.

(** Claim C4, amended.  There is no busy check: a command dispatched
    while another command is pending is processed like any other.  It
    sets [loading], issues its own call at once (exactly one, not queued)
    and is then in flight itself, without any error returned or toast
    shown; the command that was pending stays suspended as it was.  A
    command is never retried: when its call settles as a failure, the
    command completes without issuing any call. *)
Theorem dispatch_while_pending (p : Provider) (inFlight : nat)
    (pendingCmd newCmd : Command) :
  reachable p →
  suspended_in (commandBody pendingCmd) p inFlight →
  ∃ p', step p (commandEvent newCmd) = Some p'
        ∧ network p' = network p ++ [(clock p, nextCall p, commandRequest newCmd)]
        ∧ results p' = results p
        ∧ toasts p' = toasts p
        ∧ loading (state p') = true
        ∧ suspended_in (commandBody newCmd) p' (nextCall p)
        ∧ inFlight ≠ nextCall p
        ∧ suspended_in (commandBody pendingCmd) p' inFlight
        ∧ (∀ q o,
              suspended_in (commandBody newCmd) q (nextCall p) →
              succeeded newCmd o = false →
              ∃ q', step q (Settle (nextCall p) [o]) = Some q'
                    ∧ network q' = network q
                    ∧ pending q' !! nextCall p = None).
Proof.
  intros [_ Hcalls]%reachable_ok Hpending.
  assert (Hlt : inFlight < nextCall p).
  { apply Hcalls. unfold suspended_in in Hpending. by rewrite Hpending. }
  destruct (command_begins newCmd) as (Hd & Ht & Ha & Hc).
  exists (invoke (commandBody newCmd) p).
  split; [by destruct newCmd|]. unfold invoke.
  split; [by rewrite exec_network, Ha|].
  split; [by rewrite exec_results, Hc, app_nil_r|].
  split; [by rewrite exec_toasts, Ht, app_nil_r|].
  split; [by rewrite exec_state; unfold after; rewrite Hd|].
  split; [unfold suspended_in; by rewrite exec_pending, Hc, lookup_insert_eq|].
  split; [lia|].
  split.
  { unfold suspended_in. rewrite exec_pending, Hc.
    rewrite lookup_insert_ne by lia. exact Hpending. }
  intros q o Hq Hfail.
  destruct (command_fails newCmd o Hfail) as (_ & _ & Ha' & Hc').
  cbn [step]. rewrite (settle_suspended _ _ _ _ Hq) by (by rewrite Ha).
  eexists. split; [reflexivity|].
  rewrite exec_network, exec_pending, Ha', Hc'. unfold issued. simpl.
  split; [by rewrite app_nil_r|]. apply lookup_delete_eq.
Qed.

Lemma dispatch_while_pending_witness :
  reachable (invoke (controlSimulation "pause") initialProvider)
  ∧ suspended_in (commandBody (Control "pause"))
                 (invoke (controlSimulation "pause") initialProvider) 0
  ∧ ∃ p', step (invoke (controlSimulation "pause") initialProvider)
               (commandEvent (Control "pause")) = Some p'
          ∧ network p' = [(0, 0, pause_request); (0, 1, pause_request)].
Proof.
  assert (Hreach : reachable (invoke (controlSimulation "pause") initialProvider)).
  { apply (reachable_step initialProvider _ (CallControlSimulation "pause"));
      [apply reachable_initial|reflexivity]. }
  assert (Hs : suspended_in (commandBody (Control "pause"))
                 (invoke (controlSimulation "pause") initialProvider) 0)
    by reflexivity.
  split; [exact Hreach|]. split; [exact Hs|].
  destruct (dispatch_while_pending _ 0 (Control "pause") (Control "pause") Hreach Hs)
    as (p' & Hstep & Hnet & _).
  exists p'. split; [exact Hstep|]. exact Hnet.
Defined.

(** * Further properties of the provider and of its callers *)

(** ** The reducer: how dispatches compose *)

(** Property X1.  Of two dispatches aimed at the same field the later
    one wins: the state is the one the later dispatch alone would have
    given.  In particular dispatching the same action twice is the same
    as dispatching it once. *)
Theorem later_dispatch_wins (s : SimulationState) (a b : SimulationAction) :
  target a = target b →
  reduce (reduce s a) b = reduce s b.
Proof.
  intros Htarget. rewrite !reduce_eq.
  destruct a, b; try discriminate Htarget; reflexivity.
Qed.

Lemma later_dispatch_wins_witness :
  target (SET_ERROR (Js.Str "Network Error")) = target (SET_ERROR Js.Null)
  ∧ reduce (reduce initialState (SET_ERROR (Js.Str "Network Error"))) (SET_ERROR Js.Null)
    = reduce initialState (SET_ERROR Js.Null).
Proof.
  split; [reflexivity|].
  apply (later_dispatch_wins initialState (SET_ERROR (Js.Str "Network Error"))
           (SET_ERROR Js.Null)).
  reflexivity.
Defined.

(** Property X2.  Dispatches aimed at different fields commute: either
    order gives the same state. *)
Theorem dispatches_commute (s : SimulationState) (a b : SimulationAction) :
  target a ≠ target b →
  reduce (reduce s a) b = reduce (reduce s b) a.
Proof.
  intros Htarget. rewrite !reduce_eq.
  destruct a, b; try reflexivity; by destruct Htarget.
Qed.

Lemma dispatches_commute_witness :
  target (SET_STATUS (status_in "running")) ≠ target (SET_CONNECTED true)
  ∧ reduce (reduce initialState (SET_STATUS (status_in "running"))) (SET_CONNECTED true)
    = reduce (reduce initialState (SET_CONNECTED true)) (SET_STATUS (status_in "running")).
Proof.
  assert (H : target (SET_STATUS (status_in "running")) ≠ target (SET_CONNECTED true))
    by discriminate.
  split; [exact H|].
  exact (dispatches_commute initialState _ _ H).
Defined.

(** ** No operation rejects *)

Section NeverThrows.

Lemma seq_never_throws first second :
  never_throws first → never_throws second → never_throws (seq first second).
Proof. induction 1; intros Hsecond; simpl; try constructor; auto. Qed.

(** A [catch] block that cannot throw makes the whole [try] safe,
    whatever the block does. *)
Lemma try_catch_never_throws block handler :
  (∀ e, never_throws (handler e)) → never_throws (try_catch block handler).
Proof. intros Hh. induction block; simpl; try constructor; auto. Qed.

Lemma try_finally_never_throws block finalizer :
  never_throws block → never_throws finalizer →
  never_throws (try_finally block finalizer).
Proof.
  induction 1; intros Hf; simpl; try constructor; auto.
  apply seq_never_throws; [done|constructor].
Qed.

Lemma await_call_never_throws callee k :
  never_throws callee → (∀ v, never_throws (k v)) →
  never_throws (await_call callee k).
Proof. induction 1; intros Hk; simpl; try constructor; auto. Qed.

Lemma dispatch_never_throws a : never_throws (dispatch a).
Proof. repeat constructor. Qed.

Lemma toast_never_throws t : never_throws (toast t).
Proof. repeat constructor. Qed.

Lemma refreshData_never_throws : never_throws refreshData.
Proof.
  apply try_catch_never_throws. intros e.
  apply seq_never_throws; apply dispatch_never_throws.
Qed.

Lemma intervalCallback_never_throws : never_throws intervalCallback.
Proof.
  apply await_call_never_throws; [apply refreshData_never_throws|constructor].
Qed.

Lemma command_never_throws cmd : never_throws (commandBody cmd).
Proof.
  destruct cmd; simpl;
    (apply try_finally_never_throws; [|apply dispatch_never_throws]);
    apply try_catch_never_throws; intros e;
    repeat (apply seq_never_throws;
            [first [apply dispatch_never_throws|apply toast_never_throws]|]);
    constructor.
Qed.

End NeverThrows.

Lemma exec_promises_ok call body :
  never_throws body → ∀ p, promises_ok p → promises_ok (exec call body p).
Proof.
  induction 1 as [|v|a k _ IH|t k _ IH|reqs k Hk _]; intros p [Hpend Hres]; simpl.
  - split; [exact Hpend|]. intros c r [Hin|Hin%list_elem_of_singleton]%elem_of_app.
    + eauto.
    + injection Hin as -> ->. eauto.
  - split; [exact Hpend|]. intros c r [Hin|Hin%list_elem_of_singleton]%elem_of_app.
    + eauto.
    + injection Hin as -> ->. eauto.
  - apply IH. by split.
  - apply IH. split; [exact Hpend|]. exact Hres.
  - split; [|exact Hres]. intros c reqs' k'. simpl.
    destruct (decide (c = call)) as [->|Hne].
    + rewrite lookup_insert_eq. intros [= <- <-]. exact Hk.
    + rewrite lookup_insert_ne by done. apply Hpend.
Qed.

Lemma invoke_promises_ok body p :
  never_throws body → promises_ok p → promises_ok (invoke body p).
Proof. intros Hb [Hpend Hres]. apply exec_promises_ok; [done|]. by split. Qed.

Lemma step_promises_ok p e p' : step p e = Some p' → promises_ok p → promises_ok p'.
Proof.
  destruct e; simpl.
  - intros [= <-]. apply invoke_promises_ok, refreshData_never_throws.
  - intros [= <-]. apply invoke_promises_ok, (command_never_throws (Control action)).
  - intros [= <-]. apply invoke_promises_ok, (command_never_throws (Initialize config)).
  - intros [= <-]. unfold startRealTimeUpdates. by destruct captured.
  - intros [= <-]. unfold stopRealTimeUpdates. by destruct captured.
  - unfold elapse. case_decide; [|done]. by intros [= <-].
  - intros [_ ->]%fire_inv [Hpend Hres].
    apply invoke_promises_ok; [apply intervalCallback_never_throws|]. by split.
  - intros (reqs & k & Hcall & _ & ->)%settle_inv [Hpend Hres].
    apply exec_promises_ok; [by eapply Hpend|]. split; [|exact Hres].
    intros c reqs' k'. simpl. destruct (decide (c = call)) as [->|Hne].
    + by rewrite lookup_delete_eq.
    + rewrite lookup_delete_ne by done. apply Hpend.
Qed.

Lemma reachable_promises_ok p : reachable p → promises_ok p.
Proof.
  induction 1 as [|p p' e _ IH Hstep].
  - split.
    + intros call reqs k H. simpl in H. by rewrite lookup_empty in H.
    + intros call r H. simpl in H. by apply not_elem_of_nil in H.
  - by eapply step_promises_ok.
Qed.

(** Property X3.  No operation of the provider ever rejects: in every
    provider the event loop can reach, each call that has completed
    ([refreshData], the interval callback, [controlSimulation],
    [initializeSimulation]) was resolved with a value, whatever the
    network answered. *)
Theorem no_operation_rejects (p : Provider) (call : nat) (r : Completion) :
  reachable p →
  (call, r) ∈ results p →
  ∃ v, r = inr v.
Proof. intros [_ Hres]%reachable_promises_ok Hin. by eapply Hres. Qed.

Lemma no_operation_rejects_witness :
  ∃ p, run initialProvider [CallControlSimulation "pause"; Settle 0 [networkError]] = Some p
       ∧ reachable p
       ∧ (0, inr (Js.Bool false)) ∈ results p
       ∧ ∃ v, @inr Js.Error Js.Value (Js.Bool false) = inr v.
Proof.
  eexists. split; [vm_compute; reflexivity|].
  match goal with
  | |- reachable ?p ∧ _ =>
      assert (Hreach : reachable p)
        by (apply (run_reachable [CallControlSimulation "pause"; Settle 0 [networkError]]
                     initialProvider);
            [apply reachable_initial|vm_compute; reflexivity]);
      assert (Hin : (0, @inr Js.Error Js.Value (Js.Bool false)) ∈ results p)
        by (simpl; apply list_elem_of_here)
  end.
  split; [exact Hreach|]. split; [exact Hin|].
  exact (no_operation_rejects _ 0 (inr (Js.Bool false)) Hreach Hin).
Defined.

(** ** What a cycle leaves in [error], [connected] and [loading] *)

Lemma refreshData_resume_error outcomes s :
  length outcomes = 5 →
  agents_readable outcomes = true →
  error (after (refreshData_resume outcomes) s) = error s.
Proof.
  intros H Hread. five outcomes H.
  agents_cases agentsResponse; try discriminate Hread;
    repeat match goal with o : Settled |- _ => destruct o end;
    reflexivity.
Qed.

Lemma all_rejected_readable outcomes : all_rejected outcomes → agents_readable outcomes = true.
Proof. intros Hall. unfold agents_readable. by destruct (Hall Agents) as [reason ->]. Qed.

Lemma refreshData_resume_all_rejected outcomes s :
  length outcomes = 5 →
  all_rejected outcomes →
  after (refreshData_resume outcomes) s = s.
Proof.
  intros H Hall. five outcomes H.
  destruct (Hall Status) as [? [= ->]], (Hall Agents) as [? [= ->]],
    (Hall Network) as [? [= ->]], (Hall Economy) as [? [= ->]],
    (Hall Culture) as [? [= ->]].
  reflexivity.
Qed.

(** Property X4.  Failed fetches are silent.  When a cycle settles and
    the agents response can be read, [error] is left as it was and no
    toast is shown, however many of the five fetches failed; when all
    five failed, the slots and the connectivity flag are left as they
    were too. *)
Theorem cycle_failures_are_silent (p : Provider) (call : nat) (outcomes : list Settled) :
  polling p call →
  length outcomes = 5 →
  agents_readable outcomes = true →
  ∃ p', step p (Settle call outcomes) = Some p'
        ∧ error (state p') = error (state p)
        ∧ toasts p' = toasts p
        ∧ (all_rejected outcomes →
           (∀ src, slot src (state p') = slot src (state p))
           ∧ connected (state p') = connected (state p)).
Proof.
  intros Hpoll Hlen Hread.
  destruct (polling_settle p call outcomes Hpoll Hlen)
    as (p' & l & v & Hstep & Hstate & Htoasts & _).
  exists p'. split; [exact Hstep|]. rewrite Hstate. simpl.
  split; [by apply refreshData_resume_error|]. split; [exact Htoasts|].
  intros Hall. rewrite (refreshData_resume_all_rejected _ _ Hlen Hall).
  split; [|reflexivity]. intros src. apply slot_with_loading.
Qed.

Lemma cycle_failures_are_silent_witness :
  polling mounted 0
  ∧ length all_failed = 5
  ∧ agents_readable all_failed = true
  ∧ ∃ p', step mounted (Settle 0 all_failed) = Some p'
          ∧ error (state p') = error (state mounted)
          ∧ toasts p' = toasts mounted.
Proof.
  assert (Hpoll : polling mounted 0) by (left; reflexivity).
  split; [exact Hpoll|]. split; [reflexivity|]. split; [reflexivity|].
  destruct (cycle_failures_are_silent mounted 0 all_failed Hpoll eq_refl eq_refl)
    as (p' & Hstep & Herror & Htoasts & _).
  exists p'. auto.
Defined.

Lemma refreshData_resume_unreadable outcomes value s :
  length outcomes = 5 →
  outcome Agents outcomes = Some (Fulfilled value) →
  Js.nullish (Js.data value) = true →
  connected (after (refreshData_resume outcomes) s) = false
  ∧ error (after (refreshData_resume outcomes) s)
    = Js.Str (Js.message (Js.typeError (Js.data value) "agents"))
  ∧ (∀ src, src ≠ Status →
            slot src (after (refreshData_resume outcomes) s) = slot src s)
  ∧ (∀ v, outcome Status outcomes = Some (Fulfilled v) →
          slot Status (after (refreshData_resume outcomes) s) = Js.data v)
  ∧ (∀ reason, outcome Status outcomes = Some (Rejected reason) →
               slot Status (after (refreshData_resume outcomes) s) = slot Status s).
Proof.
  intros H Hagents Hnull. five outcomes H.
  simpl in Hagents. injection Hagents as ->.
  destruct value as [[]]; try discriminate Hnull;
    destruct statusResponse;
    (split; [reflexivity|]; split; [reflexivity|]; split;
     [intros []; [done|reflexivity..]|]; split;
     [intros v [= <-]; reflexivity || discriminate|intros r Hr; by try discriminate Hr]).
Qed.

(** Property X5.  An agents response that is fulfilled with a [null] or
    [undefined] body cannot be read: the read of [.agents] throws into
    the [catch] block.  The cycle then records the TypeError's text in
    [error], clears [connected] (also when the status read succeeded),
    leaves the agents, network, economy and culture slots as they were
    (also when their reads succeeded), keeps the status payload that was
    already committed, and still completes normally. *)
Theorem unreadable_agents_aborts_commits (p : Provider) (call : nat)
    (outcomes : list Settled) (value : Js.Response) :
  polling p call →
  length outcomes = 5 →
  outcome Agents outcomes = Some (Fulfilled value) →
  Js.nullish (Js.data value) = true →
  ∃ p', step p (Settle call outcomes) = Some p'
        ∧ connected (state p') = false
        ∧ error (state p') = Js.Str (Js.message (Js.typeError (Js.data value) "agents"))
        ∧ (∀ src, src ≠ Status → slot src (state p') = slot src (state p))
        ∧ (∀ v, outcome Status outcomes = Some (Fulfilled v) →
                slot Status (state p') = Js.data v)
        ∧ (∃ v, results p' = results p ++ [(call, inr v)]).
Proof.
  intros Hpoll Hlen Hagents Hnull.
  destruct (polling_settle p call outcomes Hpoll Hlen)
    as (p' & l & v & Hstep & Hstate & _ & _ & Hres & _).
  destruct (refreshData_resume_unreadable outcomes value (state p) Hlen Hagents Hnull)
    as (Hconn & Herr & Hkeep & Hstatus & _).
  exists p'. split; [exact Hstep|]. rewrite Hstate. simpl.
  split; [exact Hconn|]. split; [exact Herr|].
  split; [intros src Hsrc; rewrite slot_with_loading; by apply Hkeep|].
  split; [intros w Hw; exact (Hstatus w Hw)|].
  by exists v.
Qed.

Lemma unreadable_agents_aborts_commits_witness :
  polling mounted 0
  ∧ length [ok (status_in "running"); ok Js.Null; ok (Js.Obj []); networkError; networkError]
    = 5
  ∧ ∃ p', step mounted
            (Settle 0 [ok (status_in "running"); ok Js.Null; ok (Js.Obj []);
                       networkError; networkError]) = Some p'
          ∧ connected (state p') = false
          ∧ error (state p')
            = Js.Str "Cannot read properties of null (reading 'agents')"
          ∧ slot Network (state p') = Js.Null
          ∧ slot Status (state p') = status_in "running".
Proof.
  assert (Hpoll : polling mounted 0) by (left; reflexivity).
  split; [exact Hpoll|]. split; [reflexivity|].
  destruct (unreadable_agents_aborts_commits mounted 0
              [ok (status_in "running"); ok Js.Null; ok (Js.Obj []);
               networkError; networkError]
              (Js.mkResponse Js.Null) Hpoll eq_refl eq_refl eq_refl)
    as (p' & Hstep & Hconn & Herr & Hkeep & Hstatus & _).
  exists p'. split; [exact Hstep|]. split; [exact Hconn|]. split; [exact Herr|].
  split; [apply (Hkeep Network); discriminate|].
  exact (Hstatus (Js.mkResponse (status_in "running")) eq_refl).
Defined.

(** The message of a failed command is never empty. *)
Lemma errorMessageOf_truthy error fallback :
  fallback ≠ "" → Js.truthy (errorMessageOf error fallback) = true.
Proof.
  intros Hne. unfold errorMessageOf, Js.or.
  repeat match goal with
         | |- context [if Js.truthy ?v then _ else _] =>
             let E := fresh "E" in destruct (Js.truthy v) eqn:E; try done
         end.
  all: simpl; by destruct fallback.
Qed.

Lemma failureText_nonempty cmd : failureText cmd ≠ "".
Proof. by destruct cmd. Qed.

(** Every start of a cycle clears [error] and touches nothing else of
    the state. *)
Lemma cycle_start_state p :
  state (invoke refreshData p) = with_error Js.Null (state p)
  ∧ state (invoke intervalCallback p) = with_error Js.Null (state p).
Proof. unfold invoke. rewrite !exec_state. split; reflexivity. Qed.

(** Property X6.  A command that fails stores in [error] the very
    message it shows in its toast, and that message is never empty, so
    the error card is shown; the next start of a cycle, by a direct
    [refreshData()] or by the interval timer, sets [error] back to null
    and the card disappears. *)
Theorem failed_command_error_until_next_cycle (cmd : Command) (p : Provider)
    (call : nat) (o : Settled) :
  suspended_in (commandBody cmd) p call →
  succeeded cmd o = false →
  ∃ p' msg, step p (Settle call [o]) = Some p'
            ∧ toasts p' = toasts p ++ [toast_error msg]
            ∧ error (state p') = msg
            ∧ showsErrorCard (state p') = true
            ∧ (∀ e p'',
                  e = CallRefreshData ∨ (∃ h, e = TimerFire h) →
                  step p' e = Some p'' →
                  error (state p'') = Js.Null ∧ showsErrorCard (state p'') = false).
Proof.
  intros Hs Hfail.
  destruct (command_begins cmd) as (_ & _ & Hreq & _).
  destruct (command_fails cmd o Hfail) as (Hd & Ht & _ & _).
  cbn [step]. rewrite (settle_suspended _ _ _ _ Hs) by (by rewrite Hreq).
  eexists _, (errorMessageOf (failure cmd o) (failureText cmd)).
  split; [reflexivity|]. rewrite exec_toasts, exec_state, Ht.
  unfold after. rewrite Hd. simpl. rewrite !reduce_eq.
  split; [done|]. split; [done|].
  split; [apply errorMessageOf_truthy, failureText_nonempty|].
  intros e p'' [->|[h ->]]; simpl.
  - intros [= <-]. by rewrite (proj1 (cycle_start_state _)).
  - intros [_ ->]%fire_inv. by rewrite (proj2 (cycle_start_state _)).
Qed.

Lemma failed_command_error_until_next_cycle_witness :
  suspended_in (commandBody (Control "pause")) pausing 0
  ∧ succeeded (Control "pause") networkError = false
  ∧ ∃ p' msg, step pausing (Settle 0 [networkError]) = Some p'
              ∧ toasts p' = toasts pausing ++ [toast_error msg]
              ∧ error (state p') = msg
              ∧ showsErrorCard (state p') = true.
Proof.
  assert (Hs : suspended_in (commandBody (Control "pause")) pausing 0) by reflexivity.
  split; [exact Hs|]. split; [reflexivity|].
  destruct (failed_command_error_until_next_cycle (Control "pause") pausing 0
              networkError Hs eq_refl)
    as (p' & msg & Hstep & Htoast & Herr & Hcard & _).
  exists p', msg. auto.
Defined.

(** ** The [loading] flag *)

Lemma start_keeps_state captured p :
  state (startRealTimeUpdates captured p) = state p.
Proof. unfold startRealTimeUpdates. by destruct captured. Qed.

(** The events of polling leave [loading] alone. *)
Lemma polling_event_keeps_loading p e p' :
  step p e = Some p' →
  polling_event p e →
  loading (state p') = loading (state p).
Proof.
  destruct e; simpl; try done.
  - intros [= <-] _. by rewrite (proj1 (cycle_start_state p)).
  - intros [= <-] _. by rewrite start_keeps_state.
  - intros [= <-] _. by rewrite stop_keeps_state.
  - unfold elapse. case_decide; [|done]. by intros [= <-].
  - intros [_ ->]%fire_inv _. by rewrite (proj2 (cycle_start_state _)).
  - intros Hstep Hpoll.
    destruct (settle_inv _ _ _ _ Hstep) as (reqs & k & Hcall & Hlen & ->).
    rewrite exec_state. simpl.
    destruct Hpoll as [Hs|Hs]; unfold suspended_in in Hs; rewrite Hs in Hcall;
      injection Hcall as <- <-.
    + by apply refreshData_resume_loading.
    + change (continuation intervalCallback outcomes)
        with (await_call (refreshData_resume outcomes) (fun _ => Done)).
      unfold after. rewrite dispatched_await_call_done.
      by apply refreshData_resume_loading.
Qed.

(** Property X7.  Polling never touches [loading]: a direct
    [refreshData()], [start()], [stop()], the passing of time, a timer
    tick and the settlement of a cycle started directly or by the timer
    all leave the flag as it was.  Only commands drive it. *)
Theorem loading_untouched_by_polling (p : Provider) (e : Event) (p' : Provider) :
  step p e = Some p' →
  polling_event p e →
  loading (state p') = loading (state p).
Proof. apply polling_event_keeps_loading. Qed.

Lemma loading_untouched_by_polling_witness :
  step pausing CallRefreshData = Some (invoke refreshData pausing)
  ∧ polling_event pausing CallRefreshData
  ∧ loading (state (invoke refreshData pausing)) = true.
Proof.
  split; [reflexivity|]. split; [exact I|].
  exact (loading_untouched_by_polling pausing CallRefreshData _ eq_refl I).
Defined.

(** Property X8.  The life of [loading] under a command: the dispatch
    sets it; a successful settlement leaves it set while the refresh is
    awaited, and the settlement of that refresh clears it; a failed
    settlement clears it at once. *)
Theorem command_loading_lifecycle (cmd : Command) :
  (∀ p, loading (state (invoke (commandBody cmd) p)) = true)
  ∧ (∀ p call o,
        suspended_in (commandBody cmd) p call →
        ∃ p', step p (Settle call [o]) = Some p'
              ∧ if succeeded cmd o
                then loading (state p') = loading (state p)
                     ∧ (∀ q outcomes,
                           suspended_in (continuation (commandBody cmd) [o]) q call →
                           length outcomes = 5 →
                           ∃ q', step q (Settle call outcomes) = Some q'
                                 ∧ loading (state q') = false)
                else loading (state p') = false).
Proof.
  destruct (command_begins cmd) as (Hd & _ & Hreq & _). split.
  - intros p. unfold invoke. rewrite exec_state. unfold after. by rewrite Hd.
  - intros p call o Hs.
    cbn [step]. rewrite (settle_suspended _ _ _ _ Hs) by (by rewrite Hreq).
    eexists. split; [reflexivity|]. rewrite exec_state. unfold after.
    destruct (succeeded cmd o) eqn:Hok.
    + destruct (command_succeeds cmd o Hok) as (Hd' & _ & Ha' & _).
      rewrite Hd'. split; [reflexivity|].
      intros q outcomes Hq Hlen.
      destruct (command_refreshed cmd o outcomes Hok Hlen) as (Hd2 & _).
      cbn [step]. rewrite (settle_suspended _ _ _ _ Hq) by (by rewrite Ha').
      eexists. split; [reflexivity|]. rewrite exec_state. unfold after.
      by rewrite Hd2, foldl_app.
    + destruct (command_fails cmd o Hok) as (Hd' & _). by rewrite Hd'.
Qed.

Lemma command_loading_lifecycle_witness :
  suspended_in (commandBody (Control "pause")) pausing 0
  ∧ loading (state pausing) = true
  ∧ ∃ p', step pausing (Settle 0 [networkError]) = Some p'
          ∧ loading (state p') = false.
Proof.
  assert (Hs : suspended_in (commandBody (Control "pause")) pausing 0) by reflexivity.
  destruct (command_loading_lifecycle (Control "pause")) as [Hset Hsettle].
  split; [exact Hs|]. split; [exact (Hset initialProvider)|].
  exact (Hsettle pausing 0 networkError Hs).
Defined.

(** ** What counts as a successful command *)

Lemma is_initialized_spec v : is_initialized v = true ↔ v = Js.Str "initialized".
Proof.
  destruct v; simpl; try (split; [discriminate|discriminate]).
  rewrite String.eqb_eq. split; [by intros ->|by intros [= ->]].
Qed.

(** Property X9.  [initializeSimulation] accepts one answer only: a
    fulfilled response whose readable [status] is anything but the text
    'initialized' is a failure.  It shows the error toast 'Failed to
    initialize simulation', stores that text in [error], issues no
    refresh and resolves to [false]; [controlSimulation] given the same
    response succeeds as soon as that [status] is truthy. *)
Theorem initialize_requires_exact_status (config : Js.Value) (p : Provider)
    (call : nat) (body v : Js.Value) :
  suspended_in (initializeSimulation config) p call →
  Js.get body "status" = inr v →
  v ≠ Js.Str "initialized" →
  (∃ p', step p (Settle call [ok body]) = Some p'
         ∧ toasts p' = toasts p ++ [toast_error (Js.Str "Failed to initialize simulation")]
         ∧ error (state p') = Js.Str "Failed to initialize simulation"
         ∧ network p' = network p
         ∧ results p' = results p ++ [(call, inr (Js.Bool false))])
  ∧ (∀ action q c,
        suspended_in (controlSimulation action) q c →
        Js.truthy v = true →
        ∃ q', step q (Settle c [ok body]) = Some q'
              ∧ toasts q' = toasts q
                            ++ [toast_success ("Simulation " +:+ action +:+ " successful")]
              ∧ network q' = network q ++ issued q c refreshRequests).
Proof.
  intros Hs Hget Hne. split.
  - assert (Hfail : succeeded (Initialize config) (ok body) = false).
    { simpl. rewrite Hget. apply not_true_is_false. by rewrite is_initialized_spec. }
    destruct (command_fails (Initialize config) (ok body) Hfail) as (Hd & Ht & Ha & Hc).
    cbn [step]. rewrite (settle_suspended (initializeSimulation config) _ _ _ Hs) by done.
    eexists. split; [reflexivity|].
    rewrite exec_toasts, exec_state, exec_network, exec_results.
    change (initializeSimulation config) with (commandBody (Initialize config)).
    unfold after. rewrite Hd, Ht, Ha, Hc. simpl. rewrite Hget. unfold issued. simpl.
    by rewrite !app_nil_r.
  - intros action q c Hq Htruthy.
    assert (Hok : succeeded (Control action) (ok body) = true).
    { simpl. by rewrite Hget. }
    destruct (command_succeeds (Control action) (ok body) Hok) as (_ & Ht & Ha & _).
    cbn [step]. rewrite (settle_suspended (controlSimulation action) _ _ _ Hq) by done.
    eexists. split; [reflexivity|]. rewrite exec_toasts, exec_network.
    change (controlSimulation action) with (commandBody (Control action)).
    by rewrite Ht, Ha.
Qed.

Lemma initialize_requires_exact_status_witness :
  suspended_in (initializeSimulation Js.Null)
               (invoke (initializeSimulation Js.Null) initialProvider) 0
  ∧ Js.get (Js.Obj [("status", Js.Str "ready")]) "status" = inr (Js.Str "ready")
  ∧ Js.Str "ready" ≠ Js.Str "initialized"
  ∧ ∃ p', step (invoke (initializeSimulation Js.Null) initialProvider)
               (Settle 0 [ok (Js.Obj [("status", Js.Str "ready")])]) = Some p'
          ∧ toasts p' = [toast_error (Js.Str "Failed to initialize simulation")].
Proof.
  assert (Hs : suspended_in (initializeSimulation Js.Null)
                 (invoke (initializeSimulation Js.Null) initialProvider) 0)
    by reflexivity.
  assert (Hne : Js.Str "ready" ≠ Js.Str "initialized") by discriminate.
  split; [exact Hs|]. split; [reflexivity|]. split; [exact Hne|].
  destruct (initialize_requires_exact_status Js.Null _ 0
              (Js.Obj [("status", Js.Str "ready")]) (Js.Str "ready") Hs eq_refl Hne)
    as [(p' & Hstep & Htoast & _) _].
  exists p'. split; [exact Hstep|exact Htoast].
Defined.

(** ** Restarting the interval, and unmounting *)

(** Property X10.  A [start()] made by a render that saw no interval,
    followed by the [stop()] of the next render, which holds the new
    handle, removes exactly the timer the [start()] created: the timers
    are those there were before and the cell is cleared.  The [stop()]
    of the same render as the [start()] holds no handle and leaves the
    new timer in place.  So does the cleanup effect of the provider,
    which keeps the closure of the first render: unmounting changes
    nothing, and a timer that is due still ticks and starts a cycle
    afterwards. *)
Theorem restart_round_trip (p : Provider) :
  reachable p →
  updateInterval (startRealTimeUpdates None p) = Some (nextHandle p)
  ∧ timers (stopRealTimeUpdates (Some (nextHandle p)) (startRealTimeUpdates None p))
    = timers p
  ∧ updateInterval (stopRealTimeUpdates (Some (nextHandle p))
                                        (startRealTimeUpdates None p)) = None
  ∧ timers (stopRealTimeUpdates None (startRealTimeUpdates None p))
    = timers p ++ [mkTimer (nextHandle p) (clock p + period)]
  ∧ (∀ q h, mkTimer h (clock q) ∈ timers q →
            timers (unmount q) = timers q
            ∧ ∃ q', step (unmount q) (TimerFire h) = Some q'
                    ∧ cycleStarts q' = cycleStarts q ++ [clock q]).
Proof.
  intros [Hok _]%reachable_ok.
  split; [reflexivity|]. split.
  { unfold stopRealTimeUpdates, startRealTimeUpdates, clearInterval. simpl.
    rewrite filter_app, (fresh_handle p Hok), filter_cons_False, filter_nil.
    - apply app_nil_r.
    - simpl. intros H. by apply H. }
  split; [reflexivity|]. split; [reflexivity|].
  intros q h Hdue. split; [reflexivity|].
  unfold unmount, stopRealTimeUpdates. simpl. unfold fire.
  rewrite decide_True by done. eexists. split; [reflexivity|].
  by rewrite invoke_cycleStarts.
Qed.

Lemma restart_round_trip_witness :
  reachable initialProvider
  ∧ timers (stopRealTimeUpdates (Some 1) (startRealTimeUpdates None initialProvider)) = []
  ∧ timers (stopRealTimeUpdates None (startRealTimeUpdates None initialProvider))
    = [mkTimer 1 2000].
Proof.
  split; [exact reachable_initial|].
  destruct (restart_round_trip initialProvider reachable_initial)
    as (_ & Hnext & _ & Hsame & _).
  split; [exact Hnext|exact Hsame].
Defined.

(** ** The control buttons *)

Lemma statusIs_unique s t1 t2 :
  statusIs t1 s = true → statusIs t2 s = true → t1 = t2.
Proof.
  unfold statusIs. destruct (Js.getOpt (status s) "state"); try discriminate.
  rewrite !String.eqb_eq. congruence.
Qed.

(** Membership in a list written out. *)
Ltac members H :=
  repeat (apply elem_of_cons in H as [->|H]; [|]);
  try (by apply not_elem_of_nil in H).

(** Every button shown carries [loading] as its [disabled] attribute and
    one of the five action names. *)
Lemma controlButtons_shown s b :
  b ∈ controlButtons s →
  disabled b = loading s
  ∧ action_of b ∈ ["start"; "pause"; "resume"; "step"; "stop"].
Proof.
  unfold controlButtons.
  destruct (isStopped s), (isRunning s), (isPaused s); simpl; intros Hb;
    members Hb; (split; [reflexivity|]); simpl;
    repeat first [apply list_elem_of_here|apply list_elem_of_further].
Qed.

(** Property X11.  Which control buttons are shown depends on the state
    named by the status slot alone: 'stopped' or 'ready' shows Start;
    'running' shows Pause and Stop; 'paused' shows Resume, Step and Stop;
    any other status, and no status at all, shows none.  Every button
    shown is disabled exactly when [loading] is set. *)
Theorem control_buttons_by_status (s : SimulationState) :
  map action_of (controlButtons s)
  = (if isStopped s then ["start"]
     else if isRunning s then ["pause"; "stop"]
     else if isPaused s then ["resume"; "step"; "stop"]
     else [])
  ∧ (∀ b, b ∈ controlButtons s → disabled b = loading s)
  ∧ (Js.nullish (status s) = true → controlButtons s = []).
Proof.
  split; [|split].
  - unfold controlButtons, isStopped, isRunning, isPaused.
    destruct (statusIs "stopped" s) eqn:Hstopped, (statusIs "ready" s) eqn:Hready,
      (statusIs "running" s) eqn:Hrunning, (statusIs "paused" s) eqn:Hpaused;
      try reflexivity;
      first [ by pose proof (statusIs_unique s _ _ Hstopped Hrunning)
            | by pose proof (statusIs_unique s _ _ Hstopped Hpaused)
            | by pose proof (statusIs_unique s _ _ Hready Hrunning)
            | by pose proof (statusIs_unique s _ _ Hready Hpaused)
            | by pose proof (statusIs_unique s _ _ Hrunning Hpaused) ].
  - intros b Hb. by apply controlButtons_shown.
  - intros Hnull. unfold controlButtons, isStopped, isRunning, isPaused, statusIs.
    by destruct (status s).
Qed.

Lemma control_buttons_by_status_witness :
  map action_of (controlButtons (with_status (status_in "paused") initialState))
  = ["resume"; "step"; "stop"]
  ∧ controlButtons initialState = [].
Proof.
  split.
  - exact (proj1 (control_buttons_by_status _)).
  - apply (proj2 (proj2 (control_buttons_by_status initialState))). reflexivity.
Defined.

(** Up to the [await] of its command, a click sets [loading], clears
    [error] and issues the command's call. *)
Lemma handleControl_begins action p :
  state (invoke (handleControl action) p)
  = with_error Js.Null (with_loading true (state p))
  ∧ network (invoke (handleControl action) p)
    = network p ++ [(clock p, nextCall p, commandRequest (Control action))].
Proof.
  unfold invoke, handleControl. rewrite exec_state, exec_network. unfold after.
  by rewrite dispatched_await_call_done, awaited_await_call_done.
Qed.

(** Property X12.  The buttons are the single-flight gate.  A click on an
    enabled control button passes one of the five action names, issues
    the one call of that command and sets [loading], so that every
    control button shown is disabled; the buttons stay disabled through
    whatever polling does next, and a click on a disabled button does
    nothing. *)
Theorem click_disables_controls (p : Provider) (b : Button) :
  b ∈ controlButtons (state p) →
  disabled b = false →
  action_of b ∈ ["start"; "pause"; "resume"; "step"; "stop"]
  ∧ network (click b p)
    = network p ++ [(clock p, nextCall p, commandRequest (Control (action_of b)))]
  ∧ (∀ b', b' ∈ controlButtons (state (click b p)) →
           disabled b' = true ∧ click b' (click b p) = click b p)
  ∧ (∀ e q b',
        step (click b p) e = Some q →
        polling_event (click b p) e →
        b' ∈ controlButtons (state q) →
        disabled b' = true).
Proof.
  intros Hb Henabled.
  assert (Hclick : click b p = invoke (handleControl (action_of b)) p)
    by (unfold click; by rewrite Henabled).
  rewrite !Hclick.
  destruct (handleControl_begins (action_of b) p) as [Hstate Hnet].
  split; [by apply controlButtons_shown in Hb as [_ ?]|].
  split; [exact Hnet|].
  assert (Hloading : loading (state (invoke (handleControl (action_of b)) p)) = true)
    by (by rewrite Hstate).
  split.
  - intros b' [Hd _]%controlButtons_shown. rewrite Hloading in Hd.
    split; [exact Hd|]. unfold click. by rewrite Hd.
  - intros e q b' Hstep Hpoll [Hd _]%controlButtons_shown.
    by rewrite Hd, (polling_event_keeps_loading _ _ _ Hstep Hpoll).
Qed.

Lemma click_disables_controls_witness :
  mkButton "start" false ∈ controlButtons (with_status (status_in "ready") initialState)
  ∧ disabled (mkButton "start" false) = false
  ∧ network (click (mkButton "start" false)
               (with_state (with_status (status_in "ready")) initialProvider))
    = [(0, 0, commandRequest (Control "start"))].
Proof.
  assert (Hb : mkButton "start" false
               ∈ controlButtons (state (with_state (with_status (status_in "ready"))
                                          initialProvider)))
    by (simpl; apply list_elem_of_here).
  split; [exact Hb|]. split; [reflexivity|].
  exact (proj1 (proj2 (click_disables_controls _ _ Hb eq_refl))).
Defined.

(** ** The updates button *)

(** Property X13.  The updates button of the Simulation page follows the
    simulation status, not the interval: while the status is 'running'
    its click can only stop polling, otherwise it can only start it.  So
    it is no toggle: a second click changes nothing, it cannot start
    polling while the simulation runs, and it cannot stop polling once
    the simulation no longer runs. *)
Theorem updates_button_follows_status (p : Provider) :
  updatesButton_onClick (updatesButton_onClick p) = updatesButton_onClick p
  ∧ (isRunning (state p) = true →
     updateInterval (updatesButton_onClick p) = None
     ∧ (updateInterval p = None → updatesButton_onClick p = p))
  ∧ (isRunning (state p) = false →
     is_Some (updateInterval (updatesButton_onClick p))
     ∧ (is_Some (updateInterval p) → updatesButton_onClick p = p)).
Proof.
  unfold updatesButton_onClick. split; [|split].
  - destruct (isRunning (state p)) eqn:Hrun.
    + rewrite stop_keeps_state, Hrun.
      destruct (updateInterval p) eqn:Hu; simpl; [reflexivity|by rewrite Hu].
    + rewrite start_keeps_state, Hrun.
      destruct (updateInterval p) eqn:Hu; simpl; [by rewrite Hu|reflexivity].
  - intros ->. destruct (updateInterval p) eqn:Hu; simpl; split; try done.
  - intros ->. destruct (updateInterval p) eqn:Hu; simpl.
    + rewrite Hu. split; [by eexists|done].
    + split; [by eexists|]. by intros [? ?].
Qed.

Lemma updates_button_follows_status_witness :
  isRunning (state initialProvider) = false
  ∧ is_Some (updateInterval (updatesButton_onClick initialProvider)).
Proof.
  split; [reflexivity|].
  exact (proj1 (proj2 (proj2 (updates_button_follows_status initialProvider)) eq_refl)).
Defined.

(** ** Invariants of the calls in flight *)

(** A call that settles resumes as one of the four kinds of suspended
    call it can be. *)
Lemma settle_known call outcomes p p' :
  known_calls p →
  settle call outcomes p = Some p' →
  (polling p call ∧ length outcomes = 5)
  ∨ (∃ cmd o, suspended_in (commandBody cmd) p call ∧ outcomes = [o]).
Proof.
  intros Hknown Hstep.
  destruct (settle_inv _ _ _ _ Hstep) as (reqs & k & Hcall & Hlen & _).
  destruct (Hknown call) as [Hs|[Hs|[cmd [Hs|(o & Hok & Hs)]]]];
    [by rewrite Hcall|..].
  - left. split; [by left|].
    unfold suspended_in in Hs. rewrite Hs in Hcall. by injection Hcall as <- _.
  - left. split; [by right; left|].
    unfold suspended_in in Hs. rewrite Hs in Hcall. by injection Hcall as <- _.
  - right. exists cmd.
    unfold suspended_in in Hs. pose proof Hs as Hs'. rewrite Hcall in Hs'.
    injection Hs' as -> _. destruct (command_begins cmd) as (_ & _ & Hreq & _).
    rewrite Hreq in Hlen. destruct outcomes as [|o [|? ?]]; try discriminate Hlen.
    by exists o.
  - left. split; [right; right; by exists cmd, o|].
    unfold suspended_in in Hs. pose proof Hs as Hs'. rewrite Hcall in Hs'.
    injection Hs' as -> _. destruct (command_succeeds cmd o Hok) as (_ & _ & Hreq & _).
    by rewrite Hreq in Hlen.
Qed.

(** The other suspended calls are untouched by a call that runs. *)
Lemma exec_keeps_others call body p other :
  other ≠ call → pending (exec call body p) !! other = pending p !! other.
Proof.
  intros Hne. rewrite exec_pending. destruct (completion body); [done|].
  by rewrite lookup_insert_ne.
Qed.

Lemma command_in_flight_ext p p' call :
  pending p' !! call = pending p !! call →
  command_in_flight p call → command_in_flight p' call.
Proof. unfold command_in_flight, suspended_in. by intros ->. Qed.

Lemma known_ext p p' call :
  pending p' !! call = pending p !! call →
  (suspended_in refreshData p call ∨ suspended_in intervalCallback p call
   ∨ command_in_flight p call) →
  suspended_in refreshData p' call ∨ suspended_in intervalCallback p' call
  ∨ command_in_flight p' call.
Proof. unfold command_in_flight, suspended_in. by intros ->. Qed.

Lemma invoke_known body p :
  calls_ok p →
  known_calls p →
  (completion body = None →
   ∀ q, suspended_in body q (nextCall p) →
        suspended_in refreshData q (nextCall p)
        ∨ suspended_in intervalCallback q (nextCall p)
        ∨ command_in_flight q (nextCall p)) →
  known_calls (invoke body p).
Proof.
  intros Hcalls Hknown Hbody call Hsome.
  destruct (decide (call = nextCall p)) as [->|Hne].
  - unfold invoke in *. rewrite exec_pending in Hsome.
    destruct (completion body) eqn:Hc.
    + apply Hcalls in Hsome. lia.
    + apply Hbody; [done|]. unfold suspended_in.
      by rewrite exec_pending, Hc, lookup_insert_eq.
  - assert (Hsame : pending (invoke body p) !! call = pending p !! call)
      by (unfold invoke; by rewrite exec_keeps_others).
    apply (known_ext p); [done|]. apply Hknown. by rewrite <- Hsame.
Qed.

Lemma step_known p e p' :
  step p e = Some p' → calls_ok p → known_calls p → known_calls p'.
Proof.
  destruct e; simpl.
  - intros [= <-] Hc Hk. apply invoke_known; auto.
  - intros [= <-] Hc Hk. apply invoke_known; auto.
    intros _ q Hq. right; right. exists (Control action). by left.
  - intros [= <-] Hc Hk. apply invoke_known; auto.
    intros _ q Hq. right; right. exists (Initialize config). by left.
  - intros [= <-] _. unfold startRealTimeUpdates. by destruct captured.
  - intros [= <-] _. unfold stopRealTimeUpdates. by destruct captured.
  - unfold elapse. case_decide; [|done]. by intros [= <-].
  - intros [_ ->]%fire_inv Hc Hk. apply invoke_known; auto.
  - intros Hstep Hc Hk other Hsome.
    destruct (settle_inv _ _ _ _ Hstep) as (reqs & k & Hcall & Hlen & ->).
    destruct (decide (other = call)) as [->|Hne].
    + destruct (settle_known _ _ _ _ Hk Hstep) as [[Hpoll H5]|(cmd & o & Hs & ->)].
      * destruct (polling_settle _ _ _ Hpoll H5) as (p' & _ & _ & Hstep' & _ & _ & _ & _ & Hpend & _).
        rewrite Hstep in Hstep'. injection Hstep' as <-.
        rewrite Hpend, lookup_delete_eq in Hsome. by destruct Hsome.
      * unfold suspended_in in Hs. rewrite Hs in Hcall. injection Hcall as <- <-.
        destruct (succeeded cmd o) eqn:Hok.
        -- right; right. exists cmd. right. exists o. split; [done|].
           destruct (command_succeeds cmd o Hok) as (_ & _ & _ & Hcomp).
           unfold suspended_in. by rewrite exec_pending, Hcomp, lookup_insert_eq.
        -- destruct (command_fails cmd o Hok) as (_ & _ & _ & Hcomp).
           rewrite exec_pending, Hcomp in Hsome. simpl in Hsome.
           rewrite lookup_delete_eq in Hsome. by destruct Hsome.
    + assert (Hsame : pending (exec call (k outcomes)
                                 (with_pending (delete call (pending p)) p)) !! other
                      = pending p !! other).
      { rewrite exec_keeps_others by done. simpl. by rewrite lookup_delete_ne. }
      apply (known_ext p); [done|]. apply Hk. by rewrite <- Hsame.
Qed.

Lemma reachable_known p : reachable p → known_calls p.
Proof.
  induction 1 as [|p p' e Hreach IH Hstep].
  - intros call [? H]. simpl in H. by rewrite lookup_empty in H.
  - eapply step_known; [done| |done]. by apply reachable_ok.
Qed.

(** What one step can do to the reducer state and to the network log. *)
Lemma step_effect p e p' :
  known_calls p →
  step p e = Some p' →
  ∃ actions reqs t call,
    state p' = foldl reduce (state p) actions
    ∧ network p' = network p ++ map (fun r => (t, call, r)) reqs
    ∧ ((actions = [] ∧ reqs = [])
       ∨ (actions = [SET_ERROR Js.Null] ∧ reqs = refreshRequests)
       ∨ (∃ cmd, actions = [SET_LOADING true; SET_ERROR Js.Null]
                 ∧ reqs = [commandRequest cmd])
       ∨ (∃ outcomes, length outcomes = 5 ∧ reqs = []
                      ∧ (actions = dispatched (refreshData_resume outcomes)
                         ∨ actions = dispatched (refreshData_resume outcomes)
                                     ++ [SET_LOADING false]))
       ∨ (∃ msg, actions = [SET_ERROR msg; SET_LOADING false] ∧ reqs = [])).
Proof.
  intros Hknown. destruct e; simpl.
  - intros [= <-]. unfold invoke. exists [SET_ERROR Js.Null], refreshRequests, (clock p), (nextCall p).
    rewrite exec_state, exec_network. split; [done|]. split; [done|]. auto.
  - intros [= <-]. unfold invoke.
    exists [SET_LOADING true; SET_ERROR Js.Null], [commandRequest (Control action)],
      (clock p), (nextCall p).
    rewrite exec_state, exec_network. split; [done|]. split; [done|].
    right; right; left. by exists (Control action).
  - intros [= <-]. unfold invoke.
    exists [SET_LOADING true; SET_ERROR Js.Null], [commandRequest (Initialize config)],
      (clock p), (nextCall p).
    rewrite exec_state, exec_network. split; [done|]. split; [done|].
    right; right; left. by exists (Initialize config).
  - intros [= <-]. exists [], [], 0, 0. unfold startRealTimeUpdates.
    destruct captured; simpl; rewrite app_nil_r; auto.
  - intros [= <-]. exists [], [], 0, 0. unfold stopRealTimeUpdates.
    destruct captured; simpl; rewrite app_nil_r; auto.
  - unfold elapse. case_decide; [|done]. intros [= <-].
    exists [], [], 0, 0. simpl. rewrite app_nil_r. auto.
  - intros [_ ->]%fire_inv. unfold invoke.
    exists [SET_ERROR Js.Null], refreshRequests, (clock p), (nextCall p).
    rewrite exec_state, exec_network. split; [done|]. split; [done|]. auto.
  - intros Hstep.
    destruct (settle_known _ _ _ _ Hknown Hstep) as [[Hpoll H5]|(cmd & o & Hs & ->)].
    + destruct (refreshData_resume_completes outcomes H5) as (_ & Ha & _).
      assert (Hlen : ∀ body, polling p call → suspended_in body p call →
                             length outcomes = length (awaited body)).
      { intros body Hp Hb. unfold suspended_in in Hb.
        destruct Hp as [Hs|[Hs|(cmd & o & Hok & Hs)]];
          unfold suspended_in in Hs; rewrite Hs in Hb; injection Hb as <- _;
          [by rewrite H5..|].
        destruct (command_succeeds cmd o Hok) as (_ & _ & -> & _). by rewrite H5. }
      pose proof Hpoll as Hkind.
      destruct Hkind as [Hs|[Hs|(cmd & o & Hok & Hs)]];
        rewrite (settle_suspended _ _ _ _ Hs) in Hstep by (by apply Hlen);
        apply (inj Some) in Hstep; rewrite <- Hstep;
        rewrite exec_state, exec_network; unfold issued, after.
      * exists (dispatched (refreshData_resume outcomes)), [], (clock p), call.
        change (continuation refreshData outcomes) with (refreshData_resume outcomes).
        rewrite Ha. split; [done|]. split; [done|].
        right; right; right; left. exists outcomes. auto.
      * exists (dispatched (refreshData_resume outcomes)), [], (clock p), call.
        change (continuation intervalCallback outcomes)
          with (await_call (refreshData_resume outcomes) (fun _ => Done)).
        rewrite dispatched_await_call_done, awaited_await_call_done, Ha.
        split; [done|]. split; [done|].
        right; right; right; left. exists outcomes. auto.
      * destruct (command_refreshed cmd o outcomes Hok H5) as (Hd2 & _ & Ha2 & _).
        exists (dispatched (refreshData_resume outcomes) ++ [SET_LOADING false]), [],
          (clock p), call.
        rewrite Hd2, Ha2. split; [done|]. split; [done|].
        right; right; right; left. exists outcomes. auto.
    + destruct (command_begins cmd) as (_ & _ & Hreq & _).
      rewrite (settle_suspended _ _ _ _ Hs) in Hstep by (by rewrite Hreq).
      injection Hstep as <-. rewrite exec_state, exec_network. unfold after. simpl.
      destruct (succeeded cmd o) eqn:Hok.
      * destruct (command_succeeds cmd o Hok) as (Hd & _ & Ha & _).
        exists [SET_ERROR Js.Null], refreshRequests, (clock p), call.
        rewrite Hd, Ha. split; [done|]. split; [done|]. auto.
      * destruct (command_fails cmd o Hok) as (Hd & _ & Ha & _).
        eexists _, [], (clock p), call.
        rewrite Hd, Ha. split; [done|]. split; [done|].
        right; right; right; right. by eexists.
Qed.

(** The commit of a cycle keeps the agents slot truthy. *)
Lemma refreshData_resume_agents_truthy outcomes s :
  length outcomes = 5 →
  Js.truthy (agents s) = true →
  Js.truthy (agents (after (refreshData_resume outcomes) s)) = true.
Proof.
  intros H Hs. five outcomes H.
  agents_cases agentsResponse;
    repeat match goal with o : Settled |- _ => destruct o end;
    unfold after; simpl; rewrite ?reduce_eq; simpl; try exact Hs;
    unfold Js.or;
    match goal with
    | |- context [if Js.truthy ?v then _ else _] =>
        let E := fresh "E" in destruct (Js.truthy v) eqn:E; simpl; by rewrite ?E
    | _ => done
    end.
Qed.

Lemma step_agents_truthy p e p' :
  known_calls p →
  step p e = Some p' →
  Js.truthy (agents (state p)) = true →
  Js.truthy (agents (state p')) = true.
Proof.
  intros Hknown Hstep Hs.
  destruct (step_effect p e p' Hknown Hstep)
    as (actions & reqs & t & call & -> & _ & Hcases).
  destruct Hcases as [[-> _]|[[-> _]|[(cmd & -> & _)|[(outcomes & H5 & _ & Ha)|(msg & -> & _)]]]];
    try exact Hs.
  destruct Ha as [->| ->].
  - by apply refreshData_resume_agents_truthy.
  - rewrite foldl_app. simpl. rewrite ?reduce_eq. simpl.
    by apply refreshData_resume_agents_truthy.
Qed.

(** Property X14.  The agents slot is never null or undefined, nor any
    other falsy value: it starts as the empty list and every commit
    stores a truthy member or the empty list, so [state.agents.length]
    in the header can always be read. *)
Theorem agents_slot_never_falsy (p : Provider) :
  reachable p →
  Js.truthy (agents (state p)) = true ∧ Js.nullish (agents (state p)) = false.
Proof.
  intros Hreach.
  assert (Ht : Js.truthy (agents (state p)) = true).
  { induction Hreach as [|p p' e Hreach IH Hstep]; [reflexivity|].
    eapply step_agents_truthy; [by apply reachable_known|done|done]. }
  split; [exact Ht|]. by destruct (agents (state p)).
Qed.

Lemma agents_slot_never_falsy_witness :
  reachable mounted
  ∧ Js.truthy (agents (state mounted)) = true
  ∧ Js.nullish (agents (state mounted)) = false.
Proof.
  assert (Hreach : reachable mounted).
  { apply (reachable_step initialProvider _ CallRefreshData);
      [apply reachable_initial|reflexivity]. }
  split; [exact Hreach|]. exact (agents_slot_never_falsy mounted Hreach).
Defined.

Lemma refreshRequests_known r : r ∈ refreshRequests → known_request r.
Proof.
  unfold refreshRequests. intros H. left.
  repeat (apply elem_of_cons in H as [->|H]);
    [..|by apply not_elem_of_nil in H];
    (split; [reflexivity|]); simpl;
    repeat first [apply list_elem_of_here|apply list_elem_of_further].
Qed.

Lemma commandRequest_known cmd : known_request (commandRequest cmd).
Proof.
  destruct cmd; right; [left|right]; simpl; [|by split].
  split; [reflexivity|]. split; [reflexivity|]. by exists action.
Qed.

(** Property X15.  The provider makes seven kinds of call and no other:
    every call in the network log of a provider the event loop can reach
    is a GET of '/realtime/status', '/agents', '/realtime/network',
    '/realtime/economy' or '/realtime/culture', a POST to
    '/simulation/control' whose body is an object with the action name,
    or a POST to '/simulation/initialize'.  The other entries of the
    [api] table of the client are never used by the provider. *)
Theorem only_known_endpoints (p : Provider) (t call : nat) (r : Request) :
  reachable p →
  (t, call, r) ∈ network p →
  (method r = GET
   ∧ url r ∈ ["/realtime/status"; "/agents"; "/realtime/network";
              "/realtime/economy"; "/realtime/culture"])
  ∨ (method r = POST ∧ url r = "/simulation/control"
     ∧ ∃ action, body r = Js.Obj [("action", Js.Str action)])
  ∨ (method r = POST ∧ url r = "/simulation/initialize").
Proof.
  intros Hreach Hin. change (known_request r). revert t call r Hin.
  induction Hreach as [|p p' e Hreach IH Hstep]; intros t call r.
  - simpl. by intros ?%not_elem_of_nil.
  - destruct (step_effect p e p' (reachable_known p Hreach) Hstep)
      as (actions & reqs & t' & call' & _ & -> & Hcases).
    intros [Hin|Hin]%elem_of_app; [by eapply IH|].
    apply list_elem_of_fmap in Hin as (r' & [= -> -> ->] & Hin).
    destruct Hcases as [[_ ->]|[[_ ->]|[(cmd & _ & ->)|[(outcomes & _ & -> & _)|(msg & _ & ->)]]]].
    + by apply not_elem_of_nil in Hin.
    + by apply refreshRequests_known.
    + apply list_elem_of_singleton in Hin as ->. apply commandRequest_known.
    + by apply not_elem_of_nil in Hin.
    + by apply not_elem_of_nil in Hin.
Qed.

Lemma only_known_endpoints_witness :
  ∃ p, reachable p
       ∧ (0, 0, apiClient_get "/realtime/culture") ∈ network p
       ∧ (0, 0, commandRequest (Control "pause")) ∈ network p
       ∧ known_request (apiClient_get "/realtime/culture")
       ∧ known_request (commandRequest (Control "pause")).
Proof.
  destruct (step pausing (Settle 0 [ok (Js.Obj [("status", Js.Str "paused")])]))
    as [q|] eqn:Hq; [|vm_compute in Hq; discriminate Hq].
  assert (Hn : network <$> step pausing
                             (Settle 0 [ok (Js.Obj [("status", Js.Str "paused")])])
               = Some ((0, 0, commandRequest (Control "pause"))
                       :: map (fun r => (0, 0, r)) refreshRequests))
    by (vm_compute; reflexivity).
  rewrite Hq in Hn. injection Hn as Hn.
  assert (Hreach : reachable q).
  { refine (reachable_step pausing _ _ _ Hq).
    apply (reachable_step initialProvider _ (CallControlSimulation "pause"));
      [apply reachable_initial|reflexivity]. }
  assert (Hget : (0, 0, apiClient_get "/realtime/culture") ∈ network q).
  { rewrite Hn. unfold refreshRequests. simpl.
    repeat first [apply list_elem_of_here|apply list_elem_of_further]. }
  assert (Hpost : (0, 0, commandRequest (Control "pause")) ∈ network q)
    by (rewrite Hn; apply list_elem_of_here).
  exists q. split; [exact Hreach|]. split; [exact Hget|]. split; [exact Hpost|].
  split.
  - exact (only_known_endpoints q 0 0 _ Hreach Hget).
  - exact (only_known_endpoints q 0 0 _ Hreach Hpost).
Defined.

(** A suspended cycle is not a command in flight: they await different
    calls, or complete with different values. *)
Lemma polling_not_command p call :
  suspended_in refreshData p call ∨ suspended_in intervalCallback p call →
  command_in_flight p call →
  False.
Proof.
  unfold command_in_flight, suspended_in.
  intros Hpoll (cmd & [Hc|(o & Hok & Hc)]).
  - destruct (command_begins cmd) as (_ & _ & Hreq & _).
    destruct Hpoll as [H|H]; rewrite H in Hc; injection Hc as Hr _;
      rewrite Hreq in Hr; discriminate Hr.
  - destruct (command_refreshed cmd o scenario_outcomes Hok eq_refl) as (_ & _ & _ & Hdone).
    destruct Hpoll as [H|H]; rewrite H in Hc; injection Hc as _ Hk;
      rewrite <- Hk in Hdone; discriminate Hdone.
Qed.

Lemma command_in_flight_pending p call :
  command_in_flight p call → is_Some (pending p !! call).
Proof.
  unfold command_in_flight, suspended_in.
  intros (cmd & [->|(o & _ & ->)]); by eexists.
Qed.

Lemma invoke_cycle_busy body p :
  calls_ok p →
  loading (state (invoke body p)) = loading (state p) →
  busy_has_command p →
  busy_has_command (invoke body p).
Proof.
  intros Hcalls Hsame Hbusy Hload. rewrite Hsame in Hload.
  destruct (Hbusy Hload) as [call Hc]. exists call.
  apply (command_in_flight_ext p); [|done].
  assert (Hne : call ≠ nextCall p)
    by (apply command_in_flight_pending, Hcalls in Hc; lia).
  unfold invoke. by rewrite exec_keeps_others.
Qed.

Lemma invoke_command_busy cmd p :
  busy_has_command (invoke (commandBody cmd) p).
Proof.
  intros _. exists (nextCall p), cmd. left.
  destruct (command_begins cmd) as (_ & _ & _ & Hc).
  unfold suspended_in, invoke. by rewrite exec_pending, Hc, lookup_insert_eq.
Qed.

Lemma step_busy p e p' :
  step p e = Some p' →
  calls_ok p → known_calls p →
  busy_has_command p → busy_has_command p'.
Proof.
  destruct e; simpl.
  - intros [= <-] Hc _. apply invoke_cycle_busy; [done|].
    by rewrite (proj1 (cycle_start_state p)).
  - intros [= <-] _ _ _. apply (invoke_command_busy (Control action)).
  - intros [= <-] _ _ _. apply (invoke_command_busy (Initialize config)).
  - intros [= <-] _ _. unfold startRealTimeUpdates. by destruct captured.
  - intros [= <-] _ _. unfold stopRealTimeUpdates. by destruct captured.
  - unfold elapse. case_decide; [|done]. by intros [= <-].
  - intros [_ ->]%fire_inv Hc _ Hbusy. apply invoke_cycle_busy; [done| |done].
    by rewrite (proj2 (cycle_start_state _)).
  - intros Hstep Hc Hk Hbusy Hload.
    destruct (settle_known _ _ _ _ Hk Hstep) as [[Hpoll H5]|(cmd & o & Hs & ->)].
    + destruct Hpoll as [Hs|[Hs|(cmd & o & Hok & Hs)]].
      * assert (Hsame : loading (state p') = loading (state p))
          by (apply (polling_event_keeps_loading p (Settle call outcomes));
              [done|by left]).
        rewrite Hsame in Hload. destruct (Hbusy Hload) as [other Hother].
        assert (Hne : other ≠ call).
        { intros ->. apply (polling_not_command p call); [by left|done]. }
        exists other. apply (command_in_flight_ext p); [|done].
        rewrite (settle_suspended _ _ _ _ Hs) in Hstep by (by rewrite H5).
        apply (inj Some) in Hstep. rewrite <- Hstep.
        rewrite exec_keeps_others by done. simpl. by rewrite lookup_delete_ne.
      * assert (Hsame : loading (state p') = loading (state p))
          by (apply (polling_event_keeps_loading p (Settle call outcomes));
              [done|by right]).
        rewrite Hsame in Hload. destruct (Hbusy Hload) as [other Hother].
        assert (Hne : other ≠ call).
        { intros ->. apply (polling_not_command p call); [by right|done]. }
        exists other. apply (command_in_flight_ext p); [|done].
        rewrite (settle_suspended _ _ _ _ Hs) in Hstep by (by rewrite H5).
        apply (inj Some) in Hstep. rewrite <- Hstep.
        rewrite exec_keeps_others by done. simpl. by rewrite lookup_delete_ne.
      * destruct (command_succeeds cmd o Hok) as (_ & _ & Hreq & _).
        destruct (command_refreshed cmd o outcomes Hok H5) as (Hd & _).
        rewrite (settle_suspended _ _ _ _ Hs) in Hstep
          by (by rewrite Hreq, H5).
        apply (inj Some) in Hstep. rewrite <- Hstep in Hload.
        rewrite exec_state in Hload. unfold after in Hload.
        rewrite Hd, foldl_app in Hload. simpl in Hload.
        rewrite ?reduce_eq in Hload. simpl in Hload. discriminate Hload.
    + destruct (command_begins cmd) as (_ & _ & Hreq & _).
      rewrite (settle_suspended _ _ _ _ Hs) in Hstep by (by rewrite Hreq).
      apply (inj Some) in Hstep.
      destruct (succeeded cmd o) eqn:Hok.
      * exists call, cmd. right. exists o. split; [done|].
        destruct (command_succeeds cmd o Hok) as (_ & _ & _ & Hcomp).
        unfold suspended_in. by rewrite <- Hstep, exec_pending, Hcomp, lookup_insert_eq.
      * destruct (command_fails cmd o Hok) as (Hd & _).
        rewrite <- Hstep in Hload. rewrite exec_state in Hload. unfold after in Hload.
        rewrite Hd in Hload. simpl in Hload.
        rewrite ?reduce_eq in Hload. simpl in Hload. discriminate Hload.
Qed.

(** Property X16.  The [loading] flag is never left set: in every
    provider the event loop can reach, [loading] is true only while some
    command is still in flight, awaiting its own call or the refresh
    that follows its success.  When that call settles, the [finally]
    clears the flag (unless another command set it meanwhile and is
    itself still in flight). *)
Theorem loading_means_command_in_flight (p : Provider) :
  reachable p →
  loading (state p) = true →
  ∃ call, command_in_flight p call ∧ is_Some (pending p !! call).
Proof.
  intros Hreach Hload.
  assert (Hbusy : busy_has_command p).
  { clear Hload. induction Hreach as [|p p' e Hreach IH Hstep].
    - intros H. discriminate H.
    - eapply step_busy; [done| | |done].
      + by apply reachable_ok.
      + by apply reachable_known. }
  destruct (Hbusy Hload) as [call Hc]. exists call. split; [done|].
  by apply command_in_flight_pending.
Qed.

Lemma loading_means_command_in_flight_witness :
  reachable pausing
  ∧ loading (state pausing) = true
  ∧ ∃ call, command_in_flight pausing call ∧ is_Some (pending pausing !! call).
Proof.
  assert (Hreach : reachable pausing).
  { apply (reachable_step initialProvider _ (CallControlSimulation "pause"));
      [apply reachable_initial|reflexivity]. }
  split; [exact Hreach|]. split; [reflexivity|].
  exact (loading_means_command_in_flight pausing Hreach eq_refl).
Defined.
